(** * Usage statistics of Format Library tournament decks

    A shallow embedding of [usage_stats.py]: the cut-tier classifier, the
    deck payload parsers, the per-entry resolution of placement and
    archetype, the counter tables of the aggregation loop and their export.

    Python integers are unbounded, hence [Z].  A [Counter] and a
    [defaultdict(int)] are finite maps whose absent keys read as 0; a
    [defaultdict(Counter)] is a finite map of such maps.  A raised
    exception is [None] in the option monad. *)

From stdpp Require Import base option list gmap strings fin_maps fin_sets sorting.
From Stdlib Require Import ZArith Ascii.

Local Open Scope Z_scope.
#[local] Set Warnings "-clear-no-such-hyp".

(** ** Cut tiers *)

Definition CUT_TIERS : list (string * Z) :=
  [ ("Winner", 1);
    ("Finalist", 2);
    ("Top 4", 4);
    ("Top 8", 8);
    ("Top 16", 16);
    ("Top 24", 24);
    ("Top 32", 32);
    ("Top 48", 48);
    ("Top 64", 64) ].

(** The body of the loop of [tiers_applicable]: append the label when the
    tier's threshold fits the bracket and the placement fits the tier. *)
Definition tier_step (placement cut_size : Z)
    (applicable : list string) (tier : string * Z) : list string :=
  let '(label, threshold) := tier in
  if (threshold <=? cut_size) && (placement <=? threshold)
  then applicable ++ [label]
  else applicable.

Definition tiers_applicable (placement cut_size : Z) : list string :=
  foldl (tier_step placement cut_size) [] CUT_TIERS.

(** The loop of [infer_cut_size_from_top], which returns from inside. *)
Fixpoint first_threshold (tiers : list (string * Z)) (top_len : Z) : option Z :=
  match tiers with
  | [] => None
  | (_, thr) :: rest =>
      if top_len <=? thr then Some thr else first_threshold rest top_len
  end.

Definition infer_cut_size_from_top (top_len : Z) : Z :=
  match first_threshold CUT_TIERS top_len with
  | Some thr => thr
  | None => top_len
  end.

(** The thresholds and the labels, in definition order. *)
Definition thresholds : list Z := CUT_TIERS.*2.
Definition tier_labels : list string := CUT_TIERS.*1.

(** The qualification rule in the words of the data model: the tier's
    threshold is at most the bracket size and the placement is at most the
    threshold. *)
Definition qualifies (p b : Z) (tier : string * Z) : Prop :=
  tier.2 ≤ b ∧ p ≤ tier.2.

#[global] Instance qualifies_dec p b tier : Decision (qualifies p b tier).
Proof. unfold qualifies. apply _. Defined.

(** ** Text: the [str] methods the parsers call

    A string is a sequence of code points below 256, one per [ascii]; the
    character classes are Python's, cut to that range. *)

Definition code (c : ascii) : N := N_of_ascii c.

(** [str.isspace] on one character: tab to carriage return, the four
    separators 0x1c to 0x1f, space, NEL and the no-break space. *)
Definition is_space (c : ascii) : bool :=
  let n := code c in
  ((9 <=? n) && (n <=? 13) || (28 <=? n) && (n <=? 31)
   || (n =? 32) || (n =? 133) || (n =? 160))%N.

(** The line boundaries of [str.splitlines]. *)
Definition is_line_break (c : ascii) : bool :=
  let n := code c in
  ((10 <=? n) && (n <=? 13) || (28 <=? n) && (n <=? 30) || (n =? 133))%N.

(** [str.isdigit] on one character: the decimal digits and the
    superscripts two, three and one. *)
Definition is_digit (c : ascii) : bool :=
  let n := code c in
  ((48 <=? n) && (n <=? 57) || (n =? 178) || (n =? 179) || (n =? 185))%N.

Definition is_empty (s : string) : bool :=
  match s with EmptyString => true | String _ _ => false end.

Fixpoint lstrip (s : string) : string :=
  match s with
  | EmptyString => EmptyString
  | String c rest => if is_space c then lstrip rest else s
  end.

Fixpoint rstrip (s : string) : string :=
  match s with
  | EmptyString => EmptyString
  | String c rest =>
      let rest' := rstrip rest in
      if is_space c && is_empty rest' then EmptyString else String c rest'
  end.

(** [s.strip()] *)
Definition strip (s : string) : string := rstrip (lstrip s).

Fixpoint all_digits (s : string) : bool :=
  match s with
  | EmptyString => true
  | String c rest => is_digit c && all_digits rest
  end.

(** [s.isdigit()]: at least one character and every character a digit. *)
Definition isdigit (s : string) : bool := negb (is_empty s) && all_digits s.

(** [s.startswith(prefix)] *)
Definition startswith (s prefix : string) : bool := String.prefix prefix s.

(** [s.splitlines()]: [cur] is the line being read, [after_cr] says the
    previous character was a carriage return, so that a line feed right
    after it belongs to the same boundary. *)
Fixpoint splitlines_from (cur : string) (after_cr : bool) (s : string) : list string :=
  match s with
  | EmptyString => if is_empty cur then [] else [cur]
  | String c rest =>
      if after_cr && (code c =? 10)%N then splitlines_from cur false rest
      else if is_line_break c then cur :: splitlines_from EmptyString (code c =? 13)%N rest
      else splitlines_from (cur +:+ String c EmptyString) false rest
  end.

Definition splitlines (s : string) : list string :=
  splitlines_from EmptyString false s.

Definition normalize_card_name (name : string) : string := strip name.

(** ** Decoded payloads

    The values [requests] and [json.loads] hand to the program: [None],
    booleans, integers, strings, lists and dicts; numerals with a fraction
    or an exponent are left out.  A dict is the list of its items in
    insertion order; a key is looked up at its first item. *)

#[local] Set Warnings "-register-all".
Inductive json : Type :=
  | JNull
  | JBool (b : bool)
  | JNum (z : Z)
  | JStr (s : string)
  | JArr (items : list json)
  | JObj (fields : list (string * json)).

(** Python's truth value of a decoded value. *)
Definition truthy (v : json) : bool :=
  match v with
  | JNull => false
  | JBool b => b
  | JNum z => negb (z =? 0)
  | JStr s => negb (is_empty s)
  | JArr items => match items with [] => false | _ => true end
  | JObj fields => match fields with [] => false | _ => true end
  end.

(** [a or b] *)
Definition py_or (a b : json) : json := if truthy a then a else b.

Fixpoint assoc (k : string) (fields : list (string * json)) : option json :=
  match fields with
  | [] => None
  | (k', v) :: rest => if String.eqb k' k then Some v else assoc k rest
  end.

(** [k in d] *)
Definition has_key (fields : list (string * json)) (k : string) : bool :=
  match assoc k fields with Some _ => true | None => false end.

(** [d.get(k, dflt)] and [d.get(k)] *)
Definition dict_get_or (fields : list (string * json)) (k : string) (dflt : json) : json :=
  match assoc k fields with Some v => v | None => dflt end.

Definition dict_get (fields : list (string * json)) (k : string) : json :=
  dict_get_or fields k JNull.

(** [obj.get(k)] on a value of unknown type: only dicts have [get]. *)
Definition obj_get (obj : json) (k : string) : option json :=
  match obj with
  | JObj fields => Some (dict_get fields k)
  | _ => None
  end.

(** [for obj in v]: lists yield their items, strings their characters,
    dicts their keys; nothing else is iterable. *)
Definition chars (s : string) : list json :=
  (λ c, JStr (String c EmptyString)) <$> String.list_ascii_of_string s.

Definition iterate (v : json) : option (list json) :=
  match v with
  | JArr items => Some items
  | JStr s => Some (chars s)
  | JObj fields => Some (JStr <$> fields.*1)
  | _ => None
  end.

(** ** Counters *)

(** [c[k]] on a [Counter] or a [defaultdict(int)], for reading. *)
Definition cget (c : gmap string Z) (k : string) : Z := default 0 (c !! k).

(** [c[k] += q] *)
Definition cadd (c : gmap string Z) (k : string) (q : Z) : gmap string Z :=
  <[k := cget c k + q]> c.

(** [d[k]] on a [defaultdict(Counter)], for reading. *)
Definition cget2 (d : gmap string (gmap string Z)) (k : string) : gmap string Z :=
  default ∅ (d !! k).

(** [d[k1][k2] += q] *)
Definition cadd2 (d : gmap string (gmap string Z)) (k1 k2 : string) (q : Z)
    : gmap string (gmap string Z) :=
  <[k1 := cadd (cget2 d k1) k2 q]> d.

(** ** The deck payload parsers *)

(** [obj.get("name") or obj.get("cleanName") or obj.get("cardName")],
    then [if nm: ... normalize_card_name(nm)].  The outer option is the
    exception ([get] on a value that is no dict, [strip] on a value that
    is no string); the inner one says whether the object names a card. *)
Definition card_name (obj : json) : option (option string) :=
  a ← obj_get obj "name";
  nm ← (if truthy a then Some a
        else b ← obj_get obj "cleanName";
             if truthy b then Some b else obj_get obj "cardName");
  if truthy nm then
    match nm with
    | JStr s => Some (Some (normalize_card_name s))
    | _ => None
    end
  else Some None.

(** One turn of the loop over a section: [counts[name] += 1] when the
    object names a card. *)
Definition add_obj (counts : gmap string Z) (obj : json) : option (gmap string Z) :=
  nm ← card_name obj;
  Some (match nm with Some k => cadd counts k 1 | None => counts end).

Fixpoint add_objs (counts : gmap string Z) (objs : list json) : option (gmap string Z) :=
  match objs with
  | [] => Some counts
  | obj :: rest => counts' ← add_obj counts obj; add_objs counts' rest
  end.

(** [for obj in items or []: ...] *)
Definition add_from_section (counts : gmap string Z) (items : json) : option (gmap string Z) :=
  objs ← iterate (py_or items (JArr [])); add_objs counts objs.

(** One turn of the loop over the stripped lines of a deck list. *)
Definition add_line (counts : gmap string Z) (ln : string) : gmap string Z :=
  if is_empty ln || startswith ln "#" || startswith ln "!" then counts
  else if isdigit ln then cadd counts ("CARD_ID:" +:+ ln) 1
  else cadd counts (normalize_card_name ln) 1.

(** [lines = [ln.strip() for ln in text.splitlines()]] and the loop. *)
Definition parse_lines (counts : gmap string Z) (text : string) : gmap string Z :=
  foldl add_line counts (strip <$> splitlines text).

Definition has_section_key (fields : list (string * json)) : bool :=
  has_key fields "main" || has_key fields "extra" || has_key fields "side".

Section decoder.
(** [json.loads], of the standard library: [None] when it raises. *)
Variable json_loads : string → option json.

(** [parse_deck_payload].  It calls itself on what [json.loads] returns,
    so the definition goes by [fuel], the depth of calls left; running out
    is an exception like any other and is caught by the caller's
    [except Exception]. *)
Fixpoint parse_deck_payload_at (fuel : nat) (payload : json) : option (gmap string Z) :=
  match payload with
  | JObj fields =>
      if has_section_key fields then
        c1 ← add_from_section ∅ (dict_get_or fields "main" (JArr []));
        c2 ← add_from_section c1 (dict_get_or fields "extra" (JArr []));
        add_from_section c2 (dict_get_or fields "side" (JArr []))
      else
        match dict_get fields "ydk" with
        | JStr ydk => Some (parse_lines ∅ ydk)
        | _ => Some ∅
        end
  | JStr text =>
      match fuel with
      | O => None
      | S fuel' =>
          match json_loads text ≫= parse_deck_payload_at fuel' with
          | Some counts => Some counts
          | None => Some (parse_lines ∅ text)
          end
      end
  | _ => Some ∅
  end.

(** A decoded string is shorter than its encoding, so one call per
    character is depth enough. *)
Definition payload_depth (payload : json) : nat :=
  match payload with
  | JStr text => S (String.length text)
  | _ => 0%nat
  end.

Definition parse_deck_payload (payload : json) : option (gmap string Z) :=
  parse_deck_payload_at (payload_depth payload) payload.
End decoder.

(** [parse_deck_sections]: the three dicts, in the order (main, side, extra). *)
Definition parse_deck_sections (payload : json)
    : option (gmap string Z * gmap string Z * gmap string Z) :=
  match payload with
  | JObj fields =>
      main_counts ← add_from_section ∅ (dict_get_or fields "main" (JArr []));
      side_counts ← add_from_section ∅ (dict_get_or fields "side" (JArr []));
      extra_counts ← add_from_section ∅ (dict_get_or fields "extra" (JArr []));
      Some (main_counts, side_counts, extra_counts)
  | _ => Some (∅, ∅, ∅)
  end.

(** ** Placement and archetype of a top-cut entry *)

Definition is_decimal (c : ascii) : bool :=
  let n := code c in ((48 <=? n) && (n <=? 57))%N.

Definition decimal_value (c : ascii) : Z := Z.of_N (code c) - 48.

(** The blanks [int] allows around a literal: those of C's [isspace], tab
    to carriage return and the space, and NEL and the no-break space, which
    it reads as spaces.  The separators 0x1c to 0x1f, blanks for
    [str.strip], are none for [int]. *)
Definition is_int_space (c : ascii) : bool :=
  let n := code c in
  ((9 <=? n) && (n <=? 13) || (n =? 32) || (n =? 133) || (n =? 160))%N.

Fixpoint int_lstrip (s : string) : string :=
  match s with
  | EmptyString => EmptyString
  | String c rest => if is_int_space c then int_lstrip rest else s
  end.

Fixpoint int_rstrip (s : string) : string :=
  match s with
  | EmptyString => EmptyString
  | String c rest =>
      let rest' := int_rstrip rest in
      if is_int_space c && is_empty rest' then EmptyString else String c rest'
  end.

(** The most digits [int] converts: the default of
    [sys.int_max_str_digits]. *)
Definition MAX_STR_DIGITS : Z := 4300.

(** The digits of an integer literal: decimal digits, with single
    underscores between digits.  [prev_digit] says the previous character
    was a digit, [count] is the number of digits read; a literal of more
    than [MAX_STR_DIGITS] digits is refused. *)
Fixpoint int_digits (acc count : Z) (prev_digit : bool) (s : string) : option Z :=
  match s with
  | EmptyString => if prev_digit && (count <=? MAX_STR_DIGITS) then Some acc else None
  | String c rest =>
      if is_decimal c then int_digits (10 * acc + decimal_value c) (count + 1) true rest
      else if (code c =? 95)%N && prev_digit then int_digits acc count false rest
      else None
  end.

(** [int(s)] on a string: blanks around, an optional sign, the digits. *)
Definition int_of_string (s : string) : option Z :=
  match int_rstrip (int_lstrip s) with
  | String c rest =>
      if (code c =? 43)%N then int_digits 0 0 false rest
      else if (code c =? 45)%N then Z.opp <$> int_digits 0 0 false rest
      else int_digits 0 0 false (String c rest)
  | EmptyString => None
  end.

(** [int(v)], [None] when it raises. *)
Definition py_int (v : json) : option Z :=
  match v with
  | JNum z => Some z
  | JBool b => Some (if b then 1 else 0)
  | JStr s => int_of_string s
  | JNull | JArr _ | JObj _ => None
  end.

(** The placement no tier accepts. *)
Definition SENTINEL : Z := 9999.

(** What the loop knows of an entry once the deck payload is in. *)
Record resolved : Type := Resolved {
  r_placing : Z;
  r_archetype : json;
  r_deck_id : json;
}.

(** [entry.get("placing") or entry.get("place") or entry.get("rank")] *)
Definition entry_placing_field (entry : json) : option json :=
  a ← obj_get entry "placing";
  b ← obj_get entry "place";
  c ← obj_get entry "rank";
  Some (py_or (py_or a b) c).

(** [int] of that field, with the sentinel in the [except] branch. *)
Definition entry_placing (entry : json) : option Z :=
  raw ← entry_placing_field entry;
  Some (default SENTINEL (py_int raw)).

Definition entry_deck_id (entry : json) : option json :=
  a ← obj_get entry "deckId";
  b ← obj_get entry "id";
  c ← obj_get entry "_id";
  d ← obj_get entry "deckSlug";
  Some (py_or (py_or (py_or a b) c) d).

Definition entry_archetype (entry : json) : option json :=
  a ← obj_get entry "deckType";
  b ← obj_get entry "archetype";
  c ← obj_get entry "name";
  Some (py_or (py_or (py_or a b) c) (JStr "Unknown")).

(** The [if isinstance(payload, dict):] block: the deck's own placement
    and archetype take over the entry's. *)
Definition override_placing (payload : json) (placing : Z) : Z :=
  match payload with
  | JObj fields =>
      if has_key fields "placement" then
        match py_int (dict_get fields "placement") with
        | Some n => n
        | None => placing
        end
      else placing
  | _ => placing
  end.

Definition override_archetype (payload : json) (archetype : json) : json :=
  match payload with
  | JObj fields =>
      if truthy (dict_get fields "deckTypeName")
      then dict_get fields "deckTypeName"
      else archetype
  | _ => archetype
  end.

(** Lines 190 to 210 of the loop over the top cut, [payload] being what
    the deck fetch answers.  An entry without a deck reference is passed
    over: [Some None]. *)
Definition resolve_entry (entry payload : json) : option (option resolved) :=
  placing ← entry_placing entry;
  deck_id ← entry_deck_id entry;
  archetype ← entry_archetype entry;
  if truthy deck_id then
    Some (Some (Resolved (override_placing payload placing)
                         (override_archetype payload archetype)
                         deck_id))
  else Some None.

(** A dict without one key. *)
Fixpoint remove_key (k : string) (fields : list (string * json)) : list (string * json) :=
  match fields with
  | [] => []
  | (k', v) :: rest =>
      if String.eqb k' k then remove_key k rest else (k', v) :: remove_key k rest
  end.

(** ** The events of a run *)





(** The characters [re.sub(r"[^A-Za-z0-9]+", "", name)] keeps. *)
Definition is_alnum (c : ascii) : bool :=
  let n := code c in
  ((48 <=? n) && (n <=? 57) || (65 <=? n) && (n <=? 90) || (97 <=? n) && (n <=? 122))%N.

Fixpoint only_alnum (s : string) : string :=
  match s with
  | EmptyString => EmptyString
  | String c rest => if is_alnum c then String c (only_alnum rest) else only_alnum rest
  end.

Fixpoint all_alnum (s : string) : bool :=
  match s with
  | EmptyString => true
  | String c rest => is_alnum c && all_alnum rest
  end.

(** Lines 172 to 179: the slug of an event of the gallery, [Some None]
    when the event is passed over for want of one. *)
Definition event_slug (evt : json) : option (option json) :=
  a ← obj_get evt "slug";
  slug ← (if truthy a then Some a
          else inner ← (match evt with
                        | JObj fields => Some (dict_get_or fields "event" (JObj []))
                        | _ => None
                        end);
               b ← obj_get inner "slug";
               if truthy b then Some b else obj_get evt "abbreviation");
  if truthy slug then Some (Some slug)
  else
    nm ← obj_get evt "name";
    match py_or nm (JStr EmptyString) with
    | JStr s =>
        let name := strip s in
        if is_empty name then Some None
        else let slug' := only_alnum name in
             if is_empty slug' then Some None else Some (Some (JStr slug'))
    | _ => None
    end.

(** ** Fetching *)

(** What one [requests.get] comes to: it raises, or it answers with a
    status, the decoding of the body ([None] when [r.json()] raises) and
    the body as text. *)
Inductive reply : Type :=
  | NoReply
  | Reply (status : Z) (decoded : option json) (text : string).

Inductive fetched : Type :=
  | Returned (v : json)
  | ReturnedNone
  | Raised.

(** The outcome of [fetch_json] with the requests it made and the
    attempt numbers it slept for, each a sleep of [sleep * attempt]. *)
Record fetch_run : Type := FetchRun {
  outcome : fetched;
  requests : nat;
  sleeps : list nat;
}.

(** [r.raise_for_status()] and the return that follows: statuses from 400
    to 599 raise; with no request made, [r] is unbound. *)
Definition after_retries (last : option Z) : fetched :=
  match last with
  | None => Raised
  | Some status =>
      if (400 <=? status) && (status <? 600) then Raised else ReturnedNone
  end.

(** The loop of [fetch_json] from attempt number [attempt], with [left]
    attempts to go; [net] is what the network answers to each attempt. *)
Fixpoint fetch_from (net : nat → reply) (attempt left : nat) (last : option Z) : fetch_run :=
  match left with
  | O => FetchRun (after_retries last) 0 []
  | S left' =>
      match net attempt with
      | NoReply => FetchRun Raised 1 []
      | Reply status decoded text =>
          if status =? 200 then
            FetchRun (Returned (match decoded with Some v => v | None => JStr text end)) 1 []
          else
            let rest := fetch_from net (S attempt) left' (Some status) in
            FetchRun (outcome rest) (S (requests rest)) (attempt :: sleeps rest)
      end
  end.

Definition fetch_json (net : nat → reply) (max_retries : Z) : fetch_run :=
  fetch_from net 1 (Z.to_nat max_retries) None.

(** ** The aggregation loop *)

(** The tables [main] fills. *)
Record tables : Type := Tables {
  per_card_total : gmap string Z;
  per_card_by_cut : gmap string (gmap string Z);
  per_card_qty_by_cut : gmap string (gmap string Z);
  per_card_total_main : gmap string Z;
  per_card_total_side : gmap string Z;
  per_card_total_extra : gmap string Z;
  per_card_total_main_side : gmap string Z;
  per_card_by_cut_main : gmap string (gmap string Z);
  per_card_by_cut_side : gmap string (gmap string Z);
  per_card_by_cut_extra : gmap string (gmap string Z);
  per_card_by_cut_main_side : gmap string (gmap string Z);
  per_card_qty_by_cut_main : gmap string (gmap string Z);
  per_card_qty_by_cut_side : gmap string (gmap string Z);
  per_card_qty_by_cut_extra : gmap string (gmap string Z);
  per_card_qty_by_cut_main_side : gmap string (gmap string Z);
  per_archetype_total : gmap string Z;
  per_archetype_by_cut : gmap string (gmap string Z);
  per_deck_cut_total : gmap string Z;
  per_card_by_archetype : gmap string (gmap string Z);
  per_card_qty_by_archetype : gmap string (gmap string Z);
  per_archetype_card_presence : gmap string (gmap string Z);
  per_archetype_card_qty : gmap string (gmap string Z);
}.

(** The state before the first event: every table empty. *)
Definition no_tables : tables :=
  Tables ∅ ∅ ∅ ∅ ∅ ∅ ∅ ∅ ∅ ∅ ∅ ∅ ∅ ∅ ∅ ∅ ∅ ∅ ∅ ∅ ∅ ∅.

(** One parsed deck with the placement, bracket and archetype it is
    counted under: what lines 216 to 286 read. *)
Record deck : Type := Deck {
  counts : gmap string Z;
  main_counts : gmap string Z;
  side_counts : gmap string Z;
  extra_counts : gmap string Z;
  placing : Z;
  cut_size : Z;
  archetype : string;
}.

(** [for card, qty in m.items(): c[card] += qty] *)
Definition add_quantities (c m : gmap string Z) : gmap string Z :=
  foldl (λ acc item, cadd acc item.1 item.2) c (map_to_list m).

(** [all_ms = set(main_counts.keys()) | set(side_counts.keys())] *)
Definition all_ms (d : deck) : gset string :=
  dom (main_counts d) ∪ dom (side_counts d).

(** [main_counts.get(card, 0) + side_counts.get(card, 0)] *)
Definition ms_qty (d : deck) (card : string) : Z :=
  cget (main_counts d) card + cget (side_counts d) card.

(** [for card in cards: for tier in tiers: t[card][tier] += 1] *)
Definition add_presence (tiers : list string) (t : gmap string (gmap string Z))
    (cards : list string) : gmap string (gmap string Z) :=
  foldl (λ acc card, foldl (λ acc' tier, cadd2 acc' card tier 1) acc tiers) t cards.

(** [for card, qty in items: for tier in tiers: t[card][tier] += qty] *)
Definition add_copies (tiers : list string) (t : gmap string (gmap string Z))
    (items : list (string * Z)) : gmap string (gmap string Z) :=
  foldl (λ acc item, foldl (λ acc' tier, cadd2 acc' item.1 tier item.2) acc tiers) t items.

(** Lines 216 to 286: what one deck adds to the tables. *)
Definition observe (st : tables) (d : deck) : tables :=
  let tiers := tiers_applicable (placing d) (cut_size d) in
  let cards := elements (dom (counts d)) in
  let ms := elements (all_ms d) in
  let ms_items := (λ card, (card, ms_qty d card)) <$> ms in
  {| per_card_total := add_quantities (per_card_total st) (counts d);
     per_card_by_cut := add_presence tiers (per_card_by_cut st) cards;
     per_card_qty_by_cut :=
       add_copies tiers (per_card_qty_by_cut st) (map_to_list (counts d));
     per_card_total_main := add_quantities (per_card_total_main st) (main_counts d);
     per_card_total_side := add_quantities (per_card_total_side st) (side_counts d);
     per_card_total_extra := add_quantities (per_card_total_extra st) (extra_counts d);
     per_card_total_main_side :=
       foldl (λ acc card, cadd acc card (ms_qty d card)) (per_card_total_main_side st) ms;
     per_card_by_cut_main :=
       add_presence tiers (per_card_by_cut_main st) (map_to_list (main_counts d)).*1;
     per_card_by_cut_side :=
       add_presence tiers (per_card_by_cut_side st) (map_to_list (side_counts d)).*1;
     per_card_by_cut_extra :=
       add_presence tiers (per_card_by_cut_extra st) (map_to_list (extra_counts d)).*1;
     per_card_by_cut_main_side := add_presence tiers (per_card_by_cut_main_side st) ms;
     per_card_qty_by_cut_main :=
       add_copies tiers (per_card_qty_by_cut_main st) (map_to_list (main_counts d));
     per_card_qty_by_cut_side :=
       add_copies tiers (per_card_qty_by_cut_side st) (map_to_list (side_counts d));
     per_card_qty_by_cut_extra :=
       add_copies tiers (per_card_qty_by_cut_extra st) (map_to_list (extra_counts d));
     per_card_qty_by_cut_main_side :=
       add_copies tiers (per_card_qty_by_cut_main_side st) ms_items;
     per_archetype_total := cadd (per_archetype_total st) (archetype d) 1;
     per_archetype_by_cut :=
       foldl (λ acc tier, cadd2 acc (archetype d) tier 1) (per_archetype_by_cut st) tiers;
     per_deck_cut_total :=
       foldl (λ acc tier, cadd acc tier 1) (per_deck_cut_total st) tiers;
     per_card_by_archetype :=
       foldl (λ acc card, cadd2 acc card (archetype d) 1) (per_card_by_archetype st) cards;
     per_card_qty_by_archetype :=
       foldl (λ acc item, cadd2 acc item.1 (archetype d) item.2)
             (per_card_qty_by_archetype st) (map_to_list (counts d));
     per_archetype_card_presence :=
       foldl (λ acc card, cadd2 acc (archetype d) card 1)
             (per_archetype_card_presence st) cards;
     per_archetype_card_qty :=
       foldl (λ acc item, cadd2 acc (archetype d) item.1 item.2)
             (per_archetype_card_qty st) (map_to_list (counts d)) |}.

(** The run over the decks of all events, in the order they come. *)
Definition run_from (st : tables) (decks : list deck) : tables := foldl observe st decks.
Definition run (decks : list deck) : tables := run_from no_tables decks.

(** Lines 212 and 213 before the counting: a fetched payload becomes a deck
    through the two parsers. *)
Definition deck_of_payload (json_loads : string → option json)
    (payload : json) (placing cut_size : Z) (archetype : string) : option deck :=
  counts ← parse_deck_payload json_loads payload;
  '(main_counts, side_counts, extra_counts) ← parse_deck_sections payload;
  Some (Deck counts main_counts side_counts extra_counts placing cut_size archetype).

(** Payloads of the worked examples: a record with one card in its main
    deck, and an object whose [name] is present and empty. *)
Definition pot_record : json :=
  JObj [ ("main", JArr [JObj [("name", JStr "Pot of Greed")]]);
         ("side", JArr []);
         ("extra", JArr []) ].

Definition unnamed_object : json :=
  JObj [("name", JStr ""); ("cleanName", JStr "Dark Hole")].

Definition mixed_record : json :=
  JObj [ ("main", JArr [ JObj [("name", JStr " Pot of Greed ")];
                         JObj [("id", JNum 55)];
                         unnamed_object;
                         JObj [("name", JNull); ("cardName", JStr "Pot of Greed")] ]);
         ("side", JArr [JObj [("cleanName", JStr "Dark Hole")]]) ].

(** The two decks of the worked example: first place and fiftieth place in
    a bracket of 64. *)
Definition burn_deck (cards main side extra : gmap string Z) : deck :=
  Deck cards main side extra 1 64 "Burn".

Definition control_deck (cards main side extra : gmap string Z) : deck :=
  Deck cards main side extra 50 64 "Control".

Definition burn_example : deck :=
  burn_deck {["Pot of Greed" := 1; "Wave-Motion Cannon" := 3]}
            {["Pot of Greed" := 1; "Wave-Motion Cannon" := 2]}
            {["Wave-Motion Cannon" := 1]} ∅.

Definition control_example : deck :=
  control_deck {["Pot of Greed" := 1; "Dark Hole" := 1]}
               {["Pot of Greed" := 1]} {["Dark Hole" := 1]} ∅.

(** ** The export document *)

Definition BASE : string := "https://formatlibrary.com".
Definition GALLERY_ENDPOINT : string := "/api/events/gallery/goat".
Definition EVENT_ENDPOINT : string := "/api/events/{slug}".
Definition DECK_ENDPOINT : string := "/api/decks/{deck_id}".

(** [urljoin(BASE, path)] for a rooted [path] on a base without one. *)
Definition urljoin (base path : string) : string := base +:+ path.

Definition export_notes : list string :=
  [ "per_card_total: total quantity of each card across all parsed decks (summing copies, all sections)";
    "per_card_by_cut: number of decks that included the card at each cut tier (presence-based, all sections)";
    "per_card_qty_by_cut: total copies of the card at each cut tier (all sections)";
    "per_card_total_main/side/extra: totals by section";
    "per_card_total_main_side: totals for main+side (excluding extra)";
    "per_card_by_cut_* and per_card_qty_by_cut_*: section-specific presence/quantity by cut, including main_side";
    "per_archetype_total: number of decks per archetype (each deck counted once)";
    "per_archetype_by_cut: number of decks of that archetype that made each cut tier";
    "per_deck_cut_total: total decks that reached each cut tier (all archetypes)";
    "per_card_by_archetype: for each card, how many decks of each archetype included it (presence).";
    "per_card_qty_by_archetype: for each card, total copies across decks of each archetype.";
    "per_archetype_card_presence: for each archetype, how many decks used each card (presence).";
    "per_archetype_card_qty: for each archetype, total copies of each card." ].

(** The [result] dict: its three fixed entries, and its tables by key,
    the one-level tables apart from the two-level ones. *)
Record export : Type := Export {
  generated_at : string;
  source : list (string * string);
  notes : list string;
  flat : gmap string (gmap string Z);
  nested : gmap string (gmap string (gmap string Z));
}.

(** Lines 291 to 340; [now] is the formatted clock reading. *)
Definition serialize (now : string) (st : tables) : export :=
  {| generated_at := now;
     source :=
       [ ("gallery_endpoint", urljoin BASE GALLERY_ENDPOINT);
         ("event_endpoint_pattern", urljoin BASE "/api/events/{slug}");
         ("deck_download_pattern", urljoin BASE "/api/decks/{deck_id}") ];
     notes := export_notes;
     flat :=
       list_to_map
         [ ("per_card_total", per_card_total st);
           ("per_card_total_main", per_card_total_main st);
           ("per_card_total_side", per_card_total_side st);
           ("per_card_total_extra", per_card_total_extra st);
           ("per_card_total_main_side", per_card_total_main_side st);
           ("per_archetype_total", per_archetype_total st);
           ("per_deck_cut_total", per_deck_cut_total st) ];
     nested :=
       list_to_map
         [ ("per_card_by_cut", per_card_by_cut st);
           ("per_card_qty_by_cut", per_card_qty_by_cut st);
           ("per_card_by_cut_main", per_card_by_cut_main st);
           ("per_card_by_cut_side", per_card_by_cut_side st);
           ("per_card_by_cut_extra", per_card_by_cut_extra st);
           ("per_card_by_cut_main_side", per_card_by_cut_main_side st);
           ("per_card_qty_by_cut_main", per_card_qty_by_cut_main st);
           ("per_card_qty_by_cut_side", per_card_qty_by_cut_side st);
           ("per_card_qty_by_cut_extra", per_card_qty_by_cut_extra st);
           ("per_card_qty_by_cut_main_side", per_card_qty_by_cut_main_side st);
           ("per_archetype_by_cut", per_archetype_by_cut st);
           ("per_card_by_archetype", per_card_by_archetype st);
           ("per_card_qty_by_archetype", per_card_qty_by_archetype st);
           ("per_archetype_card_presence", per_archetype_card_presence st);
           ("per_archetype_card_qty", per_archetype_card_qty st) ] |}.

(** ** The statements of the specification, in its own words *)

(** A table is sparse when every entry it holds is a positive count: no
    key is kept at zero.  A two-level table is sparse when, besides, no
    outer key holds an empty mapping. *)
Definition sparse (c : gmap string Z) : Prop :=
  map_Forall (λ _ q, 0 < q) c.

Definition sparse2 (t : gmap string (gmap string Z)) : Prop :=
  map_Forall (λ _ inner, inner ≠ ∅ ∧ sparse inner) t.

Definition sparse_export (e : export) : Prop :=
  map_Forall (λ _ c, sparse c) (flat e) ∧ map_Forall (λ _ t, sparse2 t) (nested e).

(** The decks the parsers produce: every quantity positive. *)
Definition parsed_deck (d : deck) : Prop :=
  sparse (counts d) ∧ sparse (main_counts d)
  ∧ sparse (side_counts d) ∧ sparse (extra_counts d).

(** How often [k] is among [names], as a count. *)
Definition occurrences (k : string) (names : list string) : Z :=
  Z.of_nat (length (filter (λ n, n = k) names)).

(** The deck-list rule on one line, read on the trimmed line: a line that
    is empty once trimmed or then begins with [#] or [!] is skipped, one
    that is then numeric is a card id, any other is a card name. *)
Definition line_key (line : string) : option string :=
  let token := strip line in
  if is_empty token then None
  else if startswith token "#" || startswith token "!" then None
  else if isdigit token then Some ("CARD_ID:" +:+ token)
  else Some token.

(** The same rule in the words of the specification, which looks at the
    line itself: blank lines and lines whose first character is [#] or [!]
    are skipped, a purely numeric line is a card id, every other line
    counts under the trimmed line. *)
Definition stated_line_key (line : string) : option string :=
  if is_empty (strip line) then None
  else if startswith line "#" || startswith line "!" then None
  else if isdigit line then Some ("CARD_ID:" +:+ line)
  else Some (strip line).

(** Lines with blanks around a comment and around a card id. *)
Definition padded_comment : string := " #c".
Definition padded_card_id : string := " 4001 ".

Definition first_char (s : string) : option ascii :=
  match s with EmptyString => None | String c _ => Some c end.

(** The deck list of the worked example: a card id, a comment, a name. *)
Definition LF : string := String (ascii_of_nat 10) EmptyString.

Definition example_text : string :=
  "4001" +:+ LF +:+ "#comment" +:+ LF +:+ "Dark Hole".

Definition name_fields : list string := ["name"; "cleanName"; "cardName"].

(** The name of a card-reference object as the specification words it:
    the value of the first field that is present. *)
Definition first_present_name (obj : json) : option string :=
  match obj with
  | JObj fields =>
      match omap (λ k, assoc k fields) name_fields with
      | JStr s :: _ => Some (normalize_card_name s)
      | _ => None
      end
  | _ => None
  end.

(** The name as the code reads it: the value of the first field that holds
    a string that is not empty. *)
Definition first_nonempty_name (obj : json) : option string :=
  match obj with
  | JObj fields =>
      match filter (λ v, truthy v = true) (omap (λ k, assoc k fields) name_fields) with
      | JStr s :: _ => Some (normalize_card_name s)
      | _ => None
      end
  | _ => None
  end.

(** A card-reference object: a dict whose name fields, where present, hold
    a string or [None]. *)
Definition name_value (v : json) : bool :=
  match v with JNull | JStr _ => true | _ => false end.

Definition card_ref (obj : json) : bool :=
  match obj with
  | JObj fields => forallb name_value (omap (λ k, assoc k fields) name_fields)
  | _ => false
  end.

(** The objects of a section of a structured payload: the list under the
    key, none when the key is absent or holds [None]. *)
Definition section_objs (fields : list (string * json)) (k : string) : list json :=
  match assoc k fields with
  | Some (JArr objs) => objs
  | _ => []
  end.

Definition section_ok (fields : list (string * json)) (k : string) : bool :=
  match assoc k fields with
  | None | Some JNull => true
  | Some (JArr objs) => forallb card_ref objs
  | Some _ => false
  end.

(** A structured payload: a record with at least one of the three
    collections, each a sequence of card-reference objects. *)
Definition structured (fields : list (string * json)) : bool :=
  has_section_key fields
  && section_ok fields "main" && section_ok fields "extra" && section_ok fields "side".

(** The names a section records, object by object. *)
Definition section_names (fields : list (string * json)) (k : string) : list string :=
  omap first_nonempty_name (section_objs fields k).

(** ** The sheets built from the export: column letters *)

(** The loop of [col_letter] in [usage_sheets.py]: [while n:] with
    [n, r = divmod(n - 1, 26)] and [s = chr(65 + r) + s].  It goes by
    [fuel], the turns left; [None] is a loop that has not ended. *)
Fixpoint col_letter_loop (fuel : nat) (n : Z) (s : string) : option string :=
  match fuel with
  | O => None
  | S fuel' =>
      if n =? 0 then Some s
      else col_letter_loop fuel' ((n - 1) `div` 26)
             (String (ascii_of_N (Z.to_N (65 + (n - 1) `mod` 26))) s)
  end.

(** A column number shrinks at every turn, so one turn per unit and one
    more are enough. *)
Definition col_letter (n : Z) : option string :=
  col_letter_loop (S (Z.to_nat n)) n EmptyString.

(** The number of a column from its letters, [A] for 1 to [Z] for 26,
    read as digits to the base 26. *)
Fixpoint col_number_from (acc : Z) (s : string) : Z :=
  match s with
  | EmptyString => acc
  | String c rest => col_number_from (26 * acc + (Z.of_N (code c) - 64)) rest
  end.

Definition col_number (s : string) : Z := col_number_from 0 s.

Definition is_upper (c : ascii) : bool :=
  let n := code c in ((65 <=? n) && (n <=? 90))%N.

Fixpoint all_upper (s : string) : bool :=
  match s with
  | EmptyString => true
  | String c rest => is_upper c && all_upper rest
  end.

(** ** The sheets built from the export: sorting, and the cut labels *)

(** [sorted(l, key=key)] on keys that are strings.  Python compares
    strings by code points and its sort is stable: inserting from the right
    and before the first item that is not smaller keeps items with equal
    keys in the order they came. *)
Fixpoint insert_by {A : Type} (key : A → string) (x : A) (l : list A) : list A :=
  match l with
  | [] => [x]
  | y :: rest =>
      if String.leb (key x) (key y) then x :: y :: rest
      else y :: insert_by key x rest
  end.

Definition sorted_by {A : Type} (key : A → string) (l : list A) : list A :=
  foldr (insert_by key) [] l.

(** [sorted(l)] *)
Definition sorted (l : list string) : list string := sorted_by id l.

(** [CUT_LABELS_DEFAULT] of [usage_sheets.py]. *)
Definition CUT_LABELS_DEFAULT : list string :=
  ["Winner"; "Finalist"; "Top 4"; "Top 8"; "Top 16"; "Top 24"; "Top 32"; "Top 48"; "Top 64"].

(** [if isinstance(tiers, dict): found.update(tiers.keys())] *)
Definition found_in_item (found : gset string) (item : string * json) : gset string :=
  match item.2 with
  | JObj tiers => found ∪ list_to_set tiers.*1
  | _ => found
  end.

(** One argument of [union_cut_labels]: skipped when it is no dict. *)
Definition found_in (found : gset string) (m : json) : gset string :=
  match m with
  | JObj fields => foldl found_in_item found fields
  | _ => found
  end.

Definition found_labels (dicts : list json) : gset string := foldl found_in ∅ dicts.

(** [if t not in ordered: ordered.append(t)] *)
Definition append_new (ordered : list string) (t : string) : list string :=
  if bool_decide (t ∈ ordered) then ordered else ordered ++ [t].

(** [union_cut_labels], on the dicts it is given: the default labels
    that were found, in their own order, then the other labels found,
    sorted; the default labels when nothing was found. *)
Definition union_cut_labels (dicts : list json) : list string :=
  let found := found_labels dicts in
  let ordered := filter (λ t, t ∈ found) CUT_LABELS_DEFAULT in
  let ordered := foldl append_new ordered (sorted (elements found)) in
  match ordered with [] => CUT_LABELS_DEFAULT | _ => ordered end.

(** ** The export as the sheet scripts read it

    [json.loads] of the file that [json.dump(result, ...)] wrote: a dict
    with the three fixed entries and the tables under their keys, in the
    order of lines 313 to 339.  The tables are finite maps, so the order of
    the keys inside a table is that of [map_to_list]; the sheet scripts
    sort the keys they list. *)
Definition dump_counter (c : gmap string Z) : json :=
  JObj ((λ kv, (kv.1, JNum kv.2)) <$> map_to_list c).

Definition dump_table (t : gmap string (gmap string Z)) : json :=
  JObj ((λ kv, (kv.1, dump_counter kv.2)) <$> map_to_list t).

Definition TABLE_KEYS : list string :=
  [ "per_card_total"; "per_card_by_cut"; "per_card_qty_by_cut";
    "per_card_total_main"; "per_card_total_side"; "per_card_total_extra";
    "per_card_total_main_side";
    "per_card_by_cut_main"; "per_card_by_cut_side"; "per_card_by_cut_extra";
    "per_card_by_cut_main_side";
    "per_card_qty_by_cut_main"; "per_card_qty_by_cut_side"; "per_card_qty_by_cut_extra";
    "per_card_qty_by_cut_main_side";
    "per_archetype_total"; "per_archetype_by_cut"; "per_deck_cut_total";
    "per_card_by_archetype"; "per_card_qty_by_archetype";
    "per_archetype_card_presence"; "per_archetype_card_qty" ].

Definition document_entry (e : export) (k : string) : option (string * json) :=
  match flat e !! k with
  | Some c => Some (k, dump_counter c)
  | None => (λ t, (k, dump_table t)) <$> nested e !! k
  end.

Definition document (e : export) : list (string * json) :=
  [ ("generated_at", JStr (generated_at e));
    ("source", JObj ((λ kv, (kv.1, JStr kv.2)) <$> source e));
    ("notes", JArr (JStr <$> notes e)) ]
  ++ omap (document_entry e) TABLE_KEYS.

(** [main] of [usage_sheets.py], lines 364 to 380: the tables by cut that
    are dicts are the arguments of [union_cut_labels]. *)
Definition BY_CUT_KEYS : list string :=
  [ "per_card_by_cut"; "per_card_qty_by_cut";
    "per_card_by_cut_main"; "per_card_by_cut_side"; "per_card_by_cut_extra";
    "per_card_by_cut_main_side";
    "per_card_qty_by_cut_main"; "per_card_qty_by_cut_side"; "per_card_qty_by_cut_extra";
    "per_card_qty_by_cut_main_side" ].

Definition dicts_for_labels (data : list (string * json)) : list json :=
  omap (λ k, match dict_get data k with JObj m => Some (JObj m) | _ => None end) BY_CUT_KEYS.

Definition sheet_cut_labels (data : list (string * json)) : list string :=
  union_cut_labels (dicts_for_labels data).

(** ** The archetype sheets

    [build_per_card_matrix] and [build_per_archetype_matrix] of
    [usage_archetype_sheets.py] build their matrix in the same way and
    differ in the corner cell only.  The matrix is what is modelled, not
    the writing of it: [None] when a step raises, [Some None] when the
    sheet is skipped for want of data. *)






(** ** Notions the proofs go by *)

(** A table update is additive when it is a run of single additions
    [step] that does not depend on the table it is applied to. *)
Definition additive {T Inc : Type} (step : T → Inc → T) (F : T → T) : Prop :=
  ∃ incs, ∀ t, F t = foldl step t incs.

(** The single additions of the two kinds of table. *)
Definition step1 (c : gmap string Z) (inc : string * Z) : gmap string Z :=
  cadd c inc.1 inc.2.

Definition step2 (t : gmap string (gmap string Z)) (inc : string * string * Z)
    : gmap string (gmap string Z) :=
  cadd2 t inc.1.1 inc.1.2 inc.2.

(** What a list of items holds for the key [k], all items added up. *)
Definition total_for (k : string) (items : list (string * Z)) : Z :=
  foldr (λ item s, if decide (item.1 = k) then item.2 + s else s) 0 items.

(** The names a loop over [objs] records, in order; [None] when a turn
    raises. *)
Fixpoint recorded_names (objs : list json) : option (list string) :=
  match objs with
  | [] => Some []
  | obj :: rest =>
      nm ← card_name obj;
      names ← recorded_names rest;
      Some (match nm with Some k => k :: names | None => names end)
  end.

(** The names a section value records: those of the objects it iterates. *)
Definition section_record (items : json) : option (list string) :=
  iterate (py_or items (JArr [])) ≫= recorded_names.

(** One more copy for each name of a list. *)
Definition tally (c : gmap string Z) (names : list string) : gmap string Z :=
  foldl (λ acc n, cadd acc n 1) c names.

(** Every table of the state is sparse. *)
Definition sparse_tables (st : tables) : Prop :=
  (sparse (per_card_total st) ∧ sparse (per_card_total_main st)
   ∧ sparse (per_card_total_side st) ∧ sparse (per_card_total_extra st)
   ∧ sparse (per_card_total_main_side st) ∧ sparse (per_archetype_total st)
   ∧ sparse (per_deck_cut_total st))
  ∧ (sparse2 (per_card_by_cut st) ∧ sparse2 (per_card_qty_by_cut st)
     ∧ sparse2 (per_card_by_cut_main st) ∧ sparse2 (per_card_by_cut_side st)
     ∧ sparse2 (per_card_by_cut_extra st) ∧ sparse2 (per_card_by_cut_main_side st)
     ∧ sparse2 (per_card_qty_by_cut_main st) ∧ sparse2 (per_card_qty_by_cut_side st)
     ∧ sparse2 (per_card_qty_by_cut_extra st)
     ∧ sparse2 (per_card_qty_by_cut_main_side st))
  ∧ (sparse2 (per_archetype_by_cut st) ∧ sparse2 (per_card_by_archetype st)
     ∧ sparse2 (per_card_qty_by_archetype st)
     ∧ sparse2 (per_archetype_card_presence st)
     ∧ sparse2 (per_archetype_card_qty st)).

(** A sum over the decks of a run, and the counting of decks by a test. *)
Definition sum_over (g : deck → Z) (decks : list deck) : Z :=
  foldr (λ d s, g d + s) 0 decks.

Definition indicator (b : bool) : Z := if b then 1 else 0.

(** The deck qualifies for the tier. *)
Definition made_cut (tier : string) (d : deck) : bool :=
  bool_decide (tier ∈ tiers_applicable (placing d) (cut_size d)).

(** [card in m] *)
Definition holds (m : gmap string Z) (card : string) : bool :=
  bool_decide (card ∈ dom m).

Definition of_archetype (a : string) (d : deck) : bool :=
  bool_decide (archetype d = a).

(** Every second-level key of a table is one of the nine tier labels. *)
Definition tier_keyed (t : gmap string (gmap string Z)) : Prop :=
  map_Forall (λ _ inner, ∀ tier, tier ∈ dom inner → tier ∈ tier_labels) t.

(** The tables of a state that are keyed by tier, all keyed by the nine
    labels. *)
Definition tier_keyed_tables (st : tables) : Prop :=
  (tier_keyed (per_card_by_cut st) ∧ tier_keyed (per_card_qty_by_cut st)
   ∧ tier_keyed (per_card_by_cut_main st) ∧ tier_keyed (per_card_by_cut_side st)
   ∧ tier_keyed (per_card_by_cut_extra st) ∧ tier_keyed (per_card_by_cut_main_side st)
   ∧ tier_keyed (per_card_qty_by_cut_main st) ∧ tier_keyed (per_card_qty_by_cut_side st)
   ∧ tier_keyed (per_card_qty_by_cut_extra st)
   ∧ tier_keyed (per_card_qty_by_cut_main_side st))
  ∧ tier_keyed (per_archetype_by_cut st)
  ∧ (∀ tier, tier ∈ dom (per_deck_cut_total st) → tier ∈ tier_labels).

(** A deck that is counted under a placement no tier accepts. *)
Definition unplaced_example : deck :=
  Deck {["Pot of Greed" := 1]} {["Pot of Greed" := 1]} ∅ ∅ SENTINEL 8 "Burn".

Fixpoint last_char (s : string) : option ascii :=
  match s with
  | EmptyString => None
  | String c rest => match rest with EmptyString => Some c | _ => last_char rest end
  end.

(** A decoder of two texts, one the encoding of the other's encoding. *)
Definition nested_loads (s : string) : option json :=
  if String.eqb s "outer" then Some (JStr "in")
  else if String.eqb s "in" then Some pot_record
  else None.

(** The attempt was answered with a status other than 200. *)
Definition refused (r : reply) : bool :=
  match r with
  | Reply status _ _ => negb (status =? 200)
  | NoReply => false
  end.

Definition status_of (r : reply) : option Z :=
  match r with
  | Reply status _ _ => Some status
  | NoReply => None
  end.

(** A network that answers 503 twice and then 200 with a record. *)
Definition flaky_net (attempt : nat) : reply :=
  if (attempt <? 3)%nat then Reply 503 None "busy"
  else Reply 200 (Some pot_record) "".

(** A network that answers 204 to everything. *)
Definition empty_net (attempt : nat) : reply := Reply 204 None "".

(** A network that answers 503 once and then no more. *)
Definition broken_net (attempt : nat) : reply :=
  if (attempt <? 2)%nat then Reply 503 None "busy" else NoReply.

(** A value that is a dict. *)
Definition is_dict (v : json) : bool :=
  match v with JObj _ => true | _ => false end.

Definition is_list (v : json) : bool :=
  match v with JArr _ => true | _ => false end.

Definition section_keys : list string := ["main"; "extra"; "side"].

(** The order of [sorted]: strings by code points, items by their keys. *)
Definition str_le (a b : string) : Prop := String.leb a b = true.

Definition key_le {A : Type} (key : A → string) (x y : A) : Prop :=
  str_le (key x) (key y).

(** The label is a second-level key of one of the dicts. *)
Definition label_occurs (t : string) (dicts : list json) : Prop :=
  ∃ fields card tiers, JObj fields ∈ dicts ∧ (card, JObj tiers) ∈ fields ∧ t ∈ tiers.*1.

(** Tables with labels of their own beside the default ones, an entry that
    is no dict, and an argument that is no dict. *)
Definition labels_example : list json :=
  [ JObj [ ("Pot of Greed", JObj [("Top 8", JNum 2); ("Top 128", JNum 1)]);
           ("Dark Hole", JObj [("Winner", JNum 1); ("League", JNum 1)]);
           ("Sangan", JNum 4) ];
    JNull ].







(** ** Theorems on the classifier *)

Section classifier.
Implicit Types (p b : Z) (tiers : list (string * Z)).

Lemma tier_step_filter p b tiers acc :
  foldl (tier_step p b) acc tiers = acc ++ (filter (qualifies p b) tiers).*1.
Proof.
  revert acc. induction tiers as [|[label thr] tiers IH]; intros acc; simpl.
  - by rewrite app_nil_r.
  - rewrite IH. rewrite filter_cons. unfold qualifies at 2. simpl.
    destruct (Z.leb_spec thr b), (Z.leb_spec p thr); simpl;
      case_decide; try lia; try (exfalso; lia); try done.
    by rewrite <- app_assoc.
Qed.

Lemma tiers_applicable_filter p b :
  tiers_applicable p b = (filter (qualifies p b) CUT_TIERS).*1.
Proof. unfold tiers_applicable. by rewrite tier_step_filter. Qed.

Lemma first_threshold_Some tiers n thr :
  first_threshold tiers n = Some thr →
  ∃ pre label post, tiers = pre ++ (label, thr) :: post
                    ∧ n ≤ thr ∧ Forall (λ t, t.2 < n) pre.
Proof.
  induction tiers as [|[label t] tiers IH]; simpl; [done|].
  destruct (Z.leb_spec n t) as [Hle|Hgt].
  - intros [= <-]. by exists [], label, tiers.
  - intros (pre & l' & post & -> & ? & ?)%IH.
    exists ((label, t) :: pre), l', post. split_and!; [done|done|].
    by constructor.
Qed.

Lemma first_threshold_None tiers n :
  first_threshold tiers n = None → Forall (λ t, t.2 < n) tiers.
Proof.
  induction tiers as [|[label t] tiers IH]; simpl; [by constructor|].
  destruct (Z.leb_spec n t); [done|]. intros ?. constructor; auto.
Qed.

Lemma CUT_TIERS_bounds label thr : (label, thr) ∈ CUT_TIERS → 1 ≤ thr ≤ 64.
Proof.
  unfold CUT_TIERS. rewrite !elem_of_cons, elem_of_nil.
  intros H. repeat (destruct H as [[= -> ->]|H]; [lia|]). done.
Qed.

(** The thresholds grow along [CUT_TIERS]. *)
Lemma CUT_TIERS_sorted pre label thr post label' thr' :
  (label', thr') ∈ (label, thr) :: post →
  CUT_TIERS = pre ++ (label, thr) :: post → thr ≤ thr'.
Proof.
  intros Hin Heq.
  assert (StronglySorted (λ a b : string * Z, a.2 ≤ b.2) CUT_TIERS) as Hs.
  { unfold CUT_TIERS. repeat (constructor; [|repeat constructor; simpl; lia]).
    constructor. }
  rewrite Heq in Hs. apply StronglySorted_app in Hs as (_ & _ & Hs).
  apply elem_of_cons in Hin as [[= -> ->]|Hin]; [lia|].
  apply StronglySorted_cons in Hs as [Hall _].
  rewrite Forall_forall in Hall. by apply Hall in Hin.
Qed.

Lemma filter_none {A} (P : A → Prop) `{!∀ x, Decision (P x)} (l : list A) :
  (∀ x, x ∈ l → ¬ P x) → filter P l = [].
Proof.
  induction l as [|x l IH]; intros Hl; [done|].
  rewrite filter_cons_False by (apply Hl; left).
  apply IH. intros y Hy. apply Hl. by right.
Qed.

Lemma tiers_applicable_above_all p b : 64 < p → tiers_applicable p b = [].
Proof.
  intros Hp. rewrite tiers_applicable_filter, filter_none; [done|].
  intros [l thr] Hin [_ Hthr]. simpl in *.
  assert (thr ≤ 64) by (by apply (CUT_TIERS_bounds l)). lia.
Qed.

Lemma tiers_applicable_no_bracket p b : b ≤ 0 → tiers_applicable p b = [].
Proof.
  intros Hb. rewrite tiers_applicable_filter, filter_none; [done|].
  intros [l thr] Hin [Hthr _]. simpl in *.
  assert (1 ≤ thr) by (by apply (CUT_TIERS_bounds l)). lia.
Qed.
End classifier.

(** C2. For every placement [p] and bracket size [b], [tiers_applicable]
    returns exactly the labels of the tiers whose threshold is at most [b]
    and at least [p], in the order of [CUT_TIERS]: it is the list of tiers
    filtered by that rule, a label is returned if and only if its tier
    qualifies, and the result is a subsequence of the labels in definition
    order.  It is empty for the sentinel placement and for a bracket size
    that is not positive, and it is all nine labels for [p = 1], [b = 64]. *)
Theorem tiers_applicable_spec (p b : Z) :
  tiers_applicable p b = (filter (qualifies p b) CUT_TIERS).*1
  ∧ (∀ label, label ∈ tiers_applicable p b
       ↔ ∃ thr, (label, thr) ∈ CUT_TIERS ∧ thr ≤ b ∧ p ≤ thr)
  ∧ tiers_applicable p b `sublist_of` tier_labels
  ∧ tiers_applicable SENTINEL b = []
  ∧ (b ≤ 0 → tiers_applicable p b = [])
  ∧ tiers_applicable 1 64
    = ["Winner"; "Finalist"; "Top 4"; "Top 8"; "Top 16"; "Top 24";
       "Top 32"; "Top 48"; "Top 64"].
Proof.
  split_and!.
  - apply tiers_applicable_filter.
  - intros label. rewrite tiers_applicable_filter, list_elem_of_fmap. split.
    + intros ([l thr] & -> & [Hq Hin]%list_elem_of_filter).
      destruct Hq. by exists thr.
    + intros (thr & Hin & ? & ?). exists (label, thr). split; [done|].
      apply list_elem_of_filter. by split.
  - rewrite tiers_applicable_filter. unfold tier_labels.
    apply fmap_sublist, sublist_filter.
  - apply (tiers_applicable_above_all SENTINEL b). unfold SENTINEL. lia.
  - apply tiers_applicable_no_bracket.
  - reflexivity.
Qed.

(** The bracket sizes without a tier: an instance of C2 at [b = 0]. *)
Lemma tiers_applicable_spec_witness :
  0 ≤ 0 ∧ tiers_applicable 1 0 = [].
Proof.
  split; [lia|]. apply (tiers_applicable_spec 1 0). lia.
Defined.

(** C5. [infer_cut_size_from_top] returns the smallest threshold that is
    at least the length of the top cut, and the length itself when it is
    above 64; for every integer length, hence for every length that is not
    negative. *)
Theorem infer_cut_size_from_top_spec (top_len : Z) :
  let r := infer_cut_size_from_top top_len in
  (if decide (top_len ≤ 64)
   then r ∈ thresholds ∧ top_len ≤ r ∧ ∀ thr, thr ∈ thresholds → top_len ≤ thr → r ≤ thr
   else r = top_len)
  ∧ thresholds = [1; 2; 4; 8; 16; 24; 32; 48; 64]
  ∧ infer_cut_size_from_top 5 = 8
  ∧ infer_cut_size_from_top 100 = 100.
Proof.
  intros r. split_and!; [|done..]. subst r. unfold infer_cut_size_from_top.
  destruct (first_threshold CUT_TIERS top_len) as [thr|] eqn:Hf.
  - apply first_threshold_Some in Hf as (pre & label & post & Heq & Hle & Hpre).
    assert ((label, thr) ∈ CUT_TIERS) as Hin by (rewrite Heq; set_solver).
    case_decide as H64.
    + split_and!; [|done|].
      * unfold thresholds. apply list_elem_of_fmap. by exists (label, thr).
      * intros t ([l' t'] & -> & Ht)%list_elem_of_fmap Hlet. simpl in *.
        rewrite Heq in Ht. apply elem_of_app in Ht as [Ht|Ht].
        -- rewrite Forall_forall in Hpre. apply Hpre in Ht. simpl in Ht. lia.
        -- apply (CUT_TIERS_sorted pre label thr post l' t'); [done|].
           by rewrite <- Heq.
    + assert (thr ≤ 64) by (by apply (CUT_TIERS_bounds label)). lia.
  - apply first_threshold_None in Hf. case_decide as H64; [|done].
    rewrite Forall_forall in Hf.
    assert (("Top 64", 64) ∈ CUT_TIERS) as Hin by (unfold CUT_TIERS; set_solver).
    apply Hf in Hin. simpl in Hin. lia.
Qed.

(** ** Counters: reading after adding, and adding in any order *)

Section counters.
Implicit Types (c m : gmap string Z) (t : gmap string (gmap string Z)).
Implicit Types (k card tier : string) (q : Z).

Lemma cget_empty k : cget ∅ k = 0.
Proof. unfold cget. by rewrite lookup_empty. Qed.

Lemma cget_cadd c k q k' :
  cget (cadd c k q) k' = if decide (k = k') then cget c k + q else cget c k'.
Proof.
  unfold cadd, cget at 1. rewrite lookup_insert.
  by case_decide; subst.
Qed.

Lemma cadd_comm c k1 q1 k2 q2 :
  cadd (cadd c k1 q1) k2 q2 = cadd (cadd c k2 q2) k1 q1.
Proof.
  apply map_eq. intros i. unfold cadd at 1 3. rewrite !lookup_insert.
  rewrite !cget_cadd. unfold cadd. rewrite !lookup_insert.
  repeat case_decide; simplify_eq; try done; f_equal; lia.
Qed.

Lemma cget2_cadd2 t k1 k2 q k :
  cget2 (cadd2 t k1 k2 q) k
  = if decide (k1 = k) then cadd (cget2 t k1) k2 q else cget2 t k.
Proof.
  unfold cadd2, cget2 at 1. rewrite lookup_insert.
  by case_decide; subst.
Qed.

Lemma cadd2_comm t a1 b1 q1 a2 b2 q2 :
  cadd2 (cadd2 t a1 b1 q1) a2 b2 q2 = cadd2 (cadd2 t a2 b2 q2) a1 b1 q1.
Proof.
  apply map_eq. intros i. unfold cadd2 at 1 3. rewrite !lookup_insert.
  rewrite !cget2_cadd2. unfold cadd2. rewrite !lookup_insert.
  repeat case_decide; simplify_eq; try done. f_equal. apply cadd_comm.
Qed.
End counters.

(** Loops whose turns commute give the same table in any order of turns. *)
Lemma foldl_commute {A B} (f : A → B → A) (l l' : list B) :
  (∀ a x y, f (f a x) y = f (f a y) x) →
  l ≡ₚ l' → ∀ a, foldl f a l = foldl f a l'.
Proof.
  intros Hf Hp. induction Hp as [|x l l' _ IH|x y l|l l' l'' _ IH1 _ IH2]; intros a; simpl.
  - done.
  - apply IH.
  - by rewrite Hf.
  - by rewrite IH1, IH2.
Qed.

Lemma foldl_invariant {A B} (P : A → Prop) (f : A → B → A) (l : list B) (a : A) :
  (∀ a x, x ∈ l → P a → P (f a x)) → P a → P (foldl f a l).
Proof.
  revert a. induction l as [|x l IH]; intros a Hf Ha; simpl; [done|].
  apply IH.
  - intros a' y Hy. apply Hf. by right.
  - apply Hf; [by left|done].
Qed.

(** Additive updates commute when single additions do. *)
Section additive.
Context {T Inc : Type} (step : T → Inc → T).
Hypothesis step_comm : ∀ t x y, step (step t x) y = step (step t y) x.

Lemma additive_step x : additive step (λ t, step t x).
Proof. by exists [x]. Qed.

Lemma additive_compose F G :
  additive step F → additive step G → additive step (λ t, G (F t)).
Proof.
  intros [fi HF] [gi HG]. exists (fi ++ gi). intros t.
  by rewrite HG, HF, foldl_app.
Qed.

Lemma additive_foldl {X} (body : T → X → T) (l : list X) :
  (∀ x, additive step (λ t, body t x)) → additive step (λ t, foldl body t l).
Proof.
  intros Hbody. induction l as [|x l IH]; simpl.
  - by exists [].
  - apply (additive_compose (λ t, body t x) (λ t, foldl body t l)); auto.
Qed.

Lemma additive_commute F G t :
  additive step F → additive step G → F (G t) = G (F t).
Proof.
  intros [fi HF] [gi HG]. rewrite !HF, !HG, <- !foldl_app.
  apply foldl_commute; [done|]. apply Permutation_app_comm.
Qed.
End additive.

(** ** The tables after one deck, and after a run *)

Section aggregation.
Implicit Types (c m : gmap string Z) (t : gmap string (gmap string Z)).
Implicit Types (st : tables) (d : deck) (k card tier : string) (q : Z).

Lemma step1_comm c x y : step1 (step1 c x) y = step1 (step1 c y) x.
Proof. apply cadd_comm. Qed.

Lemma step2_comm t x y : step2 (step2 t x) y = step2 (step2 t y) x.
Proof. apply cadd2_comm. Qed.

Lemma additive_cadd k q : additive step1 (λ c, cadd c k q).
Proof. by exists [(k, q)]. Qed.

Lemma additive_cadd2 k1 k2 q : additive step2 (λ t, cadd2 t k1 k2 q).
Proof. by exists [(k1, k2, q)]. Qed.

(** Two loops of additions over the same table, in either order. *)
Ltac additive_loop :=
  repeat (apply additive_foldl; intros ?); cbv beta;
  first [apply additive_cadd | apply additive_cadd2].

Ltac swap_loops :=
  unfold add_quantities, add_presence, add_copies;
  lazymatch goal with
  | |- cadd (cadd _ _ _) _ _ = _ => apply cadd_comm
  | |- @foldl (gmap string Z) _ ?fb (foldl ?fa ?t ?la) ?lb = _ =>
      apply (additive_commute step1 step1_comm
               (λ x, foldl fb x lb) (λ x, foldl fa x la) t); additive_loop
  | |- @foldl (gmap string (gmap string Z)) _ ?fb (foldl ?fa ?t ?la) ?lb = _ =>
      apply (additive_commute step2 step2_comm
               (λ x, foldl fb x lb) (λ x, foldl fa x la) t); additive_loop
  end.

Lemma observe_commute st d1 d2 :
  observe (observe st d1) d2 = observe (observe st d2) d1.
Proof.
  unfold observe.
  cbn [per_card_total per_card_by_cut per_card_qty_by_cut per_card_total_main
       per_card_total_side per_card_total_extra per_card_total_main_side
       per_card_by_cut_main per_card_by_cut_side per_card_by_cut_extra
       per_card_by_cut_main_side per_card_qty_by_cut_main per_card_qty_by_cut_side
       per_card_qty_by_cut_extra per_card_qty_by_cut_main_side per_archetype_total
       per_archetype_by_cut per_deck_cut_total per_card_by_archetype
       per_card_qty_by_archetype per_archetype_card_presence per_archetype_card_qty].
  f_equal; swap_loops.
Qed.

Lemma run_from_permutation st decks decks' :
  decks ≡ₚ decks' → run_from st decks = run_from st decks'.
Proof.
  intros Hp. unfold run_from. apply foldl_commute; [|done].
  intros a x y. apply observe_commute.
Qed.

Lemma run_from_snoc st decks d :
  run_from st (decks ++ [d]) = observe (run_from st decks) d.
Proof. unfold run_from. by rewrite foldl_app. Qed.

(** Reading a table after a loop of additions. *)
Lemma cget_add_items c (items : list (string * Z)) k :
  cget (foldl (λ acc item, cadd acc item.1 item.2) c items) k
  = cget c k + total_for k items.
Proof.
  revert c. induction items as [|[k' q] items IH]; intros c; simpl; [lia|].
  rewrite IH, cget_cadd. fold (total_for k items). repeat case_decide; simplify_eq; lia.
Qed.

Lemma total_for_cons k (item : string * Z) (items : list (string * Z)) :
  total_for k (item :: items)
  = if decide (item.1 = k) then item.2 + total_for k items else total_for k items.
Proof. done. Qed.

Lemma total_for_absent k (items : list (string * Z)) :
  k ∉ items.*1 → total_for k items = 0.
Proof.
  induction items as [|[k' q] items IH]; simpl; [done|].
  rewrite not_elem_of_cons. intros [? ?]. case_decide; [done|]. by apply IH.
Qed.

Lemma total_for_NoDup k (items : list (string * Z)) :
  NoDup items.*1 →
  total_for k items = cget (list_to_map items) k.
Proof.
  induction items as [|[k' q] items IH]; simpl.
  - intros _. by rewrite cget_empty.
  - rewrite NoDup_cons. intros [Hk' Hnd]. unfold cget. rewrite lookup_insert.
    fold (total_for k items). case_decide; subst; simpl.
    + rewrite total_for_absent by done. lia.
    + by apply IH.
Qed.

Lemma total_for_map_to_list m k : total_for k (map_to_list m) = cget m k.
Proof.
  rewrite total_for_NoDup by apply NoDup_fst_map_to_list.
  by rewrite list_to_map_to_list.
Qed.

Lemma total_for_keys (f : string → Z) (l : list string) k :
  NoDup l →
  total_for k ((λ card, (card, f card)) <$> l) = if decide (k ∈ l) then f k else 0.
Proof.
  induction l as [|x l IH].
  - done.
  - rewrite NoDup_cons. intros [Hx Hnd].
    rewrite fmap_cons, total_for_cons, IH by done. simpl.
    destruct (decide (x = k)) as [->|Hne].
    + rewrite decide_False by done. rewrite decide_True by left. lia.
    + destruct (decide (k ∈ l)) as [Hin|Hin].
      * rewrite decide_True by (by right). done.
      * rewrite decide_False; [done|]. rewrite elem_of_cons. intros [?|?]; congruence.
Qed.

Lemma foldl_keys_items (f : string → Z) c (l : list string) :
  foldl (λ acc card, cadd acc card (f card)) c l
  = foldl (λ acc item, cadd acc item.1 item.2) c ((λ card, (card, f card)) <$> l).
Proof. by rewrite foldl_fmap. Qed.

Lemma cget_add_quantities c m k :
  cget (add_quantities c m) k = cget c k + cget m k.
Proof. unfold add_quantities. by rewrite cget_add_items, total_for_map_to_list. Qed.

Lemma cget_absent m k : m !! k = None → cget m k = 0.
Proof. unfold cget. by intros ->. Qed.

(** What one deck adds to the main+side total of a card: its main and side
    quantities. *)
Lemma cget_main_side_observe st d k :
  cget (per_card_total_main_side (observe st d)) k
  = cget (per_card_total_main_side st) k + ms_qty d k.
Proof.
  unfold observe. cbn [per_card_total_main_side].
  rewrite foldl_keys_items, cget_add_items, total_for_keys by apply NoDup_elements.
  case_decide as Hin; [done|].
  rewrite elem_of_elements in Hin. unfold all_ms in Hin.
  apply not_elem_of_union in Hin as [Hm Hs].
  apply not_elem_of_dom in Hm, Hs.
  unfold ms_qty. rewrite (cget_absent _ _ Hm), (cget_absent _ _ Hs). lia.
Qed.

Lemma main_side_invariant_from st decks k :
  cget (per_card_total_main_side st) k
    = cget (per_card_total_main st) k + cget (per_card_total_side st) k →
  cget (per_card_total_main_side (run_from st decks)) k
    = cget (per_card_total_main (run_from st decks)) k
      + cget (per_card_total_side (run_from st decks)) k.
Proof.
  revert st. induction decks as [|d decks IH]; intros st Hst; [done|].
  apply IH. rewrite cget_main_side_observe.
  unfold observe. cbn [per_card_total_main per_card_total_side].
  rewrite !cget_add_quantities. unfold ms_qty. lia.
Qed.
End aggregation.

(** C3. After every deck of a run (the run cut at any point [n]) and for
    every card, the main+side total is the sum of the main total and the
    side total, absent keys reading as 0; and what one deck adds to the
    main+side total of a card is the sum of that deck's main and side
    quantities of the card. *)
Theorem main_side_total_invariant (decks : list deck) (n : nat) (card : string) :
  let st := run (take n decks) in
  cget (per_card_total_main_side st) card
    = cget (per_card_total_main st) card + cget (per_card_total_side st) card
  ∧ ∀ d : deck,
      cget (per_card_total_main_side (observe st d)) card
      = cget (per_card_total_main_side st) card
        + (cget (main_counts d) card + cget (side_counts d) card).
Proof.
  intros st. split.
  - apply main_side_invariant_from. simpl. by rewrite !cget_empty.
  - intros d. apply cget_main_side_observe.
Qed.

(** ** Sparse tables stay sparse *)

Section sparseness.
Implicit Types (c m : gmap string Z) (t : gmap string (gmap string Z)).
Implicit Types (st : tables) (d : deck) (k card tier : string) (q : Z).

Lemma sparse_empty : sparse ∅.
Proof. apply map_Forall_empty. Qed.

Lemma sparse2_empty : sparse2 ∅.
Proof. apply map_Forall_empty. Qed.

Lemma sparse_cget c k : sparse c → 0 ≤ cget c k.
Proof.
  intros Hc. unfold cget. destruct (c !! k) as [q|] eqn:Hk; simpl; [|lia].
  apply Hc in Hk. lia.
Qed.

Lemma sparse_cget_pos c k q : sparse c → c !! k = Some q → 0 < cget c k.
Proof. intros Hc Hk. unfold cget. rewrite Hk. simpl. by apply Hc in Hk. Qed.

Lemma sparse_cadd c k q : 0 < q → sparse c → sparse (cadd c k q).
Proof.
  intros Hq Hc. unfold cadd. apply map_Forall_insert_2; [|done].
  pose proof (sparse_cget c k Hc). lia.
Qed.

Lemma sparse_cget2 t k : sparse2 t → sparse (cget2 t k).
Proof.
  intros Ht. unfold cget2. destruct (t !! k) as [inner|] eqn:Hk; simpl.
  - by apply Ht in Hk as [_ ?].
  - apply sparse_empty.
Qed.

Lemma sparse2_cadd2 t k1 k2 q : 0 < q → sparse2 t → sparse2 (cadd2 t k1 k2 q).
Proof.
  intros Hq Ht. unfold cadd2. apply map_Forall_insert_2; [|done]. split.
  - unfold cadd. apply insert_non_empty.
  - by apply sparse_cadd, sparse_cget2.
Qed.

Lemma sparse_item m (item : string * Z) :
  sparse m → item ∈ map_to_list m → 0 < item.2.
Proof.
  intros Hm Hin. destruct item as [k q].
  apply elem_of_map_to_list in Hin. by apply Hm in Hin.
Qed.

Lemma ms_qty_pos d card :
  sparse (main_counts d) → sparse (side_counts d) →
  card ∈ elements (all_ms d) → 0 < ms_qty d card.
Proof.
  intros Hm Hs. rewrite elem_of_elements. unfold all_ms, ms_qty.
  rewrite elem_of_union, !elem_of_dom.
  pose proof (sparse_cget _ card Hm). pose proof (sparse_cget _ card Hs).
  intros [[q Hq]|[q Hq]].
  - pose proof (sparse_cget_pos _ _ _ Hm Hq). lia.
  - pose proof (sparse_cget_pos _ _ _ Hs Hq). lia.
Qed.

Lemma sparse_add_quantities c m : sparse m → sparse c → sparse (add_quantities c m).
Proof.
  intros Hm. unfold add_quantities. apply foldl_invariant.
  intros a item Hin Ha. apply sparse_cadd; [|done]. by apply (sparse_item m).
Qed.

Lemma sparse2_add_presence tiers t cards :
  sparse2 t → sparse2 (add_presence tiers t cards).
Proof.
  unfold add_presence. apply foldl_invariant. intros a card _.
  apply foldl_invariant. intros a' tier _. by apply sparse2_cadd2.
Qed.

Lemma sparse2_add_copies tiers t (items : list (string * Z)) :
  Forall (λ item, 0 < item.2) items → sparse2 t → sparse2 (add_copies tiers t items).
Proof.
  rewrite Forall_forall. intros Hitems. unfold add_copies.
  apply foldl_invariant. intros a item Hin.
  apply foldl_invariant. intros a' tier _. apply sparse2_cadd2. by apply Hitems.
Qed.

Lemma sparse_items m : sparse m → Forall (λ item : string * Z, 0 < item.2) (map_to_list m).
Proof. intros Hm. apply Forall_forall. intros item. by apply sparse_item. Qed.

Lemma observe_sparse st d :
  parsed_deck d → sparse_tables st → sparse_tables (observe st d).
Proof.
  intros (Hc & Hm & Hs & He).
  intros ((?&?&?&?&?&?&?) & (?&?&?&?&?&?&?&?&?&?) & (?&?&?&?&?)).
  unfold sparse_tables, observe.
  cbn [per_card_total per_card_by_cut per_card_qty_by_cut per_card_total_main
       per_card_total_side per_card_total_extra per_card_total_main_side
       per_card_by_cut_main per_card_by_cut_side per_card_by_cut_extra
       per_card_by_cut_main_side per_card_qty_by_cut_main per_card_qty_by_cut_side
       per_card_qty_by_cut_extra per_card_qty_by_cut_main_side per_archetype_total
       per_archetype_by_cut per_deck_cut_total per_card_by_archetype
       per_card_qty_by_archetype per_archetype_card_presence per_archetype_card_qty].
  split_and!;
    try (by apply sparse_add_quantities);
    try (by apply sparse2_add_presence);
    try (apply sparse2_add_copies; [by apply sparse_items|done]);
    try (by apply sparse_cadd);
    try (apply foldl_invariant; [|done]; intros a x Hx Ha;
         first [ apply sparse_cadd; [|done] | apply sparse2_cadd2; [|done] ];
         first [ done | by apply ms_qty_pos | by apply (sparse_item (counts d)) ]).
  apply sparse2_add_copies; [|done]. apply Forall_forall.
  intros item (card & -> & Hcard)%list_elem_of_fmap. simpl. by apply ms_qty_pos.
Qed.

Lemma run_sparse decks :
  Forall parsed_deck decks → sparse_tables (run decks).
Proof.
  intros Hall. unfold run, run_from. apply foldl_invariant.
  - intros st d Hd. rewrite Forall_forall in Hall. apply observe_sparse. by apply Hall.
  - unfold sparse_tables, no_tables. simpl.
    split_and!; first [apply sparse_empty | apply sparse2_empty].
Qed.

Lemma serialize_sparse now st : sparse_tables st → sparse_export (serialize now st).
Proof.
  intros ((?&?&?&?&?&?&?) & (?&?&?&?&?&?&?&?&?&?) & (?&?&?&?&?)).
  unfold sparse_export, serialize. cbn [flat nested list_to_map foldr].
  split; repeat (apply map_Forall_insert_2; [done|]); apply map_Forall_empty.
Qed.
End sparseness.

(** C7. Feeding the same decks in two orders gives equal export documents:
    every table of the one equals, as a mapping of mappings, the table of
    the other.  The export is sparse: when the decks are parser output
    (every quantity positive), every count it holds is positive and no
    outer key holds an empty mapping, so only observed combinations are
    present. *)
Theorem serialize_order_independent (now : string) (decks decks' : list deck) :
  decks ≡ₚ decks' →
  serialize now (run decks) = serialize now (run decks')
  ∧ (Forall parsed_deck decks → sparse_export (serialize now (run decks))).
Proof.
  intros Hp. split.
  - unfold run. by rewrite (run_from_permutation _ _ _ Hp).
  - intros Hall. by apply serialize_sparse, run_sparse.
Qed.

(** Two decks in the two orders: an instance of C7. *)
Lemma serialize_order_independent_witness :
  [burn_example; control_example] ≡ₚ [control_example; burn_example]
  ∧ serialize "2026-01-01T00:00:00Z" (run [burn_example; control_example])
    = serialize "2026-01-01T00:00:00Z" (run [control_example; burn_example]).
Proof.
  split; [apply perm_swap|].
  apply (serialize_order_independent "2026-01-01T00:00:00Z"
           [burn_example; control_example] [control_example; burn_example]).
  apply perm_swap.
Defined.

(** ** The worked example of two decks *)

Lemma archetype_tables_observe (st : tables) (d : deck) :
  per_archetype_by_cut (observe st d)
  = foldl (λ acc tier, cadd2 acc (archetype d) tier 1) (per_archetype_by_cut st)
          (tiers_applicable (placing d) (cut_size d))
  ∧ per_deck_cut_total (observe st d)
    = foldl (λ acc tier, cadd acc tier 1) (per_deck_cut_total st)
            (tiers_applicable (placing d) (cut_size d)).
Proof. done. Qed.

(** C1, as stated, fails: the deck placed fiftieth in a bracket of 64 is
    within the Top 64, so the table of "Control" is not empty and the deck
    totals are not those of "Burn" alone. *)
Lemma control_deck_reaches_top_64 :
  let st := run [burn_example; control_example] in
  cget2 (per_archetype_by_cut st) "Control" ≠ ∅
  ∧ per_deck_cut_total st ≠ per_deck_cut_total (run [burn_example]).
Proof.
  split.
  - intros Heq. apply (f_equal (λ m, m !! "Top 64")) in Heq.
    vm_compute in Heq. discriminate.
  - intros Heq. apply (f_equal (λ m, m !! "Top 64")) in Heq.
    vm_compute in Heq. discriminate.
Qed.

(** C1, amended.  Whatever cards the two decks hold, after the "Burn" deck
    placed first and the "Control" deck placed fiftieth in brackets of 64,
    in either order: the table of "Burn" holds the nine tiers at 1 each, the
    table of "Control" holds "Top 64" at 1 and nothing else, and the deck
    totals are 1 for the eight tiers up to "Top 48" and 2 for "Top 64". *)
Theorem two_decks_archetype_by_cut
    (cards main side extra cards' main' side' extra' : gmap string Z) :
  let burn := burn_deck cards main side extra in
  let control := control_deck cards' main' side' extra' in
  let st := run [burn; control] in
  run [control; burn] = st
  ∧ tiers_applicable (placing control) (cut_size control) = ["Top 64"]
  ∧ per_archetype_by_cut st !! "Burn"
    = Some {[ "Winner" := 1; "Finalist" := 1; "Top 4" := 1; "Top 8" := 1;
              "Top 16" := 1; "Top 24" := 1; "Top 32" := 1; "Top 48" := 1;
              "Top 64" := 1 ]}
  ∧ per_archetype_by_cut st !! "Control" = Some {[ "Top 64" := 1 ]}
  ∧ per_deck_cut_total st
    = {[ "Winner" := 1; "Finalist" := 1; "Top 4" := 1; "Top 8" := 1;
         "Top 16" := 1; "Top 24" := 1; "Top 32" := 1; "Top 48" := 1;
         "Top 64" := 2 ]}.
Proof.
  intros burn control st. split_and!.
  - unfold st, run, run_from. simpl. apply observe_commute.
  - done.
  - unfold st, run, run_from. cbn [foldl].
    rewrite !(proj1 (archetype_tables_observe _ _)). by vm_compute.
  - unfold st, run, run_from. cbn [foldl].
    rewrite !(proj1 (archetype_tables_observe _ _)). by vm_compute.
  - unfold st, run, run_from. cbn [foldl].
    rewrite !(proj2 (archetype_tables_observe _ _)). by vm_compute.
Qed.

(** ** Text *)

Section text.
Implicit Types (s ln text : string) (c : ascii).

Lemma is_digit_not_space c : is_digit c = true → is_space c = false.
Proof. destruct c as [[] [] [] [] [] [] [] []]; by vm_compute. Qed.

Lemma lstrip_cases s :
  lstrip s = EmptyString ∨ ∃ c r, lstrip s = String c r ∧ is_space c = false.
Proof.
  induction s as [|c s IH]; simpl; [by left|].
  destruct (is_space c) eqn:Hc; [done|]. right. by exists c, s.
Qed.

Lemma rstrip_idemp s : rstrip (rstrip s) = rstrip s.
Proof.
  induction s as [|c s IH]; simpl; [done|].
  destruct (is_space c && is_empty (rstrip s)) eqn:Hc; simpl; [done|].
  by rewrite IH, Hc.
Qed.

Lemma strip_idemp s : strip (strip s) = strip s.
Proof.
  unfold strip. destruct (lstrip_cases s) as [->|(c & r & -> & Hc)]; [done|].
  simpl. rewrite Hc. simpl. rewrite Hc. simpl. rewrite Hc. simpl.
  by rewrite rstrip_idemp.
Qed.

Lemma strip_all_digits s : all_digits s = true → strip s = s.
Proof.
  intros Hs. unfold strip.
  assert (lstrip s = s) as ->.
  { destruct s as [|c s]; simpl in *; [done|].
    apply andb_prop in Hs as [Hc%is_digit_not_space _]. by rewrite Hc. }
  induction s as [|c s IH]; simpl in *; [done|].
  apply andb_prop in Hs as [Hc%is_digit_not_space Hs].
  rewrite Hc. simpl. by rewrite IH.
Qed.

Lemma strip_first_char s c :
  first_char s = Some c → is_space c = false → first_char (strip s) = Some c.
Proof.
  destruct s as [|c' s]; simpl; [done|]. intros [= ->] Hc.
  unfold strip. simpl. rewrite Hc. simpl. by rewrite Hc.
Qed.

Lemma startswith_first_char s c :
  startswith s (String c EmptyString) = true ↔ first_char s = Some c.
Proof.
  unfold startswith. destruct s as [|c' s]; simpl; [done|].
  destruct (Ascii.ascii_dec c c') as [->|Hne].
  - split; [done|]. intros _. by destruct s.
  - split; [done|]. by intros [= ->].
Qed.

(** What the loop over the lines does with a line, by the rule on lines. *)
Lemma add_line_key (counts : gmap string Z) ln :
  add_line counts (strip ln)
  = match line_key ln with Some key => cadd counts key 1 | None => counts end.
Proof.
  unfold add_line, line_key, normalize_card_name. rewrite strip_idemp.
  destruct (is_empty (strip ln)); simpl; [done|].
  destruct (startswith (strip ln) "#" || startswith (strip ln) "!"); [done|].
  by destruct (isdigit (strip ln)).
Qed.

Lemma occurrences_cons k n (names : list string) :
  occurrences k (n :: names)
  = (if decide (n = k) then 1 else 0) + occurrences k names.
Proof.
  unfold occurrences. rewrite filter_cons.
  case_decide; simpl length; lia.
Qed.

Lemma occurrences_app k (l1 l2 : list string) :
  occurrences k (l1 ++ l2) = occurrences k l1 + occurrences k l2.
Proof. unfold occurrences. rewrite filter_app, length_app. lia. Qed.

Lemma occurrences_pos k (names : list string) :
  0 < occurrences k names ↔ k ∈ names.
Proof.
  induction names as [|n names IH].
  - unfold occurrences. simpl. split; [lia|]. by intros ?%elem_of_nil.
  - rewrite occurrences_cons, elem_of_cons.
    assert (0 ≤ occurrences k names) by (unfold occurrences; lia).
    case_decide; subst; [split; [by left|lia]|].
    rewrite Z.add_0_l, IH. split; [by right|]. intros [?|?]; congruence.
Qed.

Lemma cget_tally (c : gmap string Z) (names : list string) k :
  cget (tally c names) k = cget c k + occurrences k names.
Proof.
  revert c. induction names as [|n names IH]; intros c.
  - unfold occurrences. simpl. lia.
  - unfold tally in *. simpl. rewrite IH, cget_cadd, occurrences_cons.
    case_decide; subst; lia.
Qed.

Lemma tally_dom (names : list string) k :
  k ∈ dom (tally ∅ names) ↔ k ∈ names.
Proof.
  assert (∀ m : gmap string Z, dom (tally m names) = dom m ∪ list_to_set names) as Hdom.
  { induction names as [|n names IH]; intros m; simpl.
    - set_solver.
    - unfold tally in *. simpl. rewrite IH. unfold cadd. rewrite dom_insert_L.
      set_solver. }
  rewrite Hdom. set_solver.
Qed.

Lemma parse_lines_tally (counts : gmap string Z) text :
  parse_lines counts text = tally counts (omap line_key (splitlines text)).
Proof.
  unfold parse_lines. rewrite foldl_fmap.
  generalize (splitlines text) as lines. intros lines. revert counts.
  induction lines as [|ln lines IH]; intros counts; simpl; [done|].
  rewrite add_line_key, IH. by destruct (line_key ln).
Qed.
End text.

(** ** The parsers *)

Section parsers.
Variable json_loads : string → option json.
Implicit Types (counts : gmap string Z) (fields : list (string * json)).
Implicit Types (obj payload items : json) (objs : list json) (k : string).

Lemma add_objs_tally counts objs :
  add_objs counts objs = tally counts <$> recorded_names objs.
Proof.
  revert counts. induction objs as [|obj objs IH]; intros counts; simpl; [done|].
  unfold add_obj. destruct (card_name obj) as [nm|]; simpl; [|done].
  rewrite IH. destruct (recorded_names objs) as [names|]; simpl; [|done].
  by destruct nm.
Qed.

Lemma add_from_section_tally counts items :
  add_from_section counts items = tally counts <$> section_record items.
Proof.
  unfold add_from_section, section_record.
  destruct (iterate (py_or items (JArr []))) as [objs|]; simpl; [|done].
  apply add_objs_tally.
Qed.

Lemma tally_app counts (l1 l2 : list string) :
  tally counts (l1 ++ l2) = tally (tally counts l1) l2.
Proof. unfold tally. by rewrite foldl_app. Qed.

(** A payload with a section key goes through the three sections, whatever
    the depth of calls left. *)
Lemma parse_deck_payload_record fields :
  has_section_key fields = true →
  parse_deck_payload json_loads (JObj fields)
  = main ← section_record (dict_get_or fields "main" (JArr []));
    extra ← section_record (dict_get_or fields "extra" (JArr []));
    side ← section_record (dict_get_or fields "side" (JArr []));
    Some (tally ∅ (main ++ extra ++ side)).
Proof.
  intros Hkey. unfold parse_deck_payload. simpl. rewrite Hkey.
  rewrite add_from_section_tally.
  destruct (section_record (dict_get_or fields "main" _)) as [main|]; simpl; [|done].
  rewrite add_from_section_tally.
  destruct (section_record (dict_get_or fields "extra" _)) as [extra|]; simpl; [|done].
  rewrite add_from_section_tally.
  destruct (section_record (dict_get_or fields "side" _)) as [side|]; simpl; [|done].
  by rewrite !tally_app.
Qed.

Lemma parse_deck_sections_record fields :
  parse_deck_sections (JObj fields)
  = main ← section_record (dict_get_or fields "main" (JArr []));
    side ← section_record (dict_get_or fields "side" (JArr []));
    extra ← section_record (dict_get_or fields "extra" (JArr []));
    Some (tally ∅ main, tally ∅ side, tally ∅ extra).
Proof.
  unfold parse_deck_sections. rewrite !add_from_section_tally.
  destruct (section_record (dict_get_or fields "main" _)) as [main|]; simpl; [|done].
  destruct (section_record (dict_get_or fields "side" _)) as [side|]; simpl; [|done].
  by destruct (section_record (dict_get_or fields "extra" _)) as [extra|].
Qed.

(** A payload without a section key and with a deck list under [ydk]. *)
Lemma parse_deck_payload_ydk fields text :
  has_section_key fields = false →
  dict_get fields "ydk" = JStr text →
  parse_deck_payload json_loads (JObj fields) = Some (parse_lines ∅ text).
Proof.
  intros Hkey Hydk. unfold parse_deck_payload. simpl. by rewrite Hkey, Hydk.
Qed.

(** A string that does not decode is read as a deck list. *)
Lemma parse_deck_payload_text text :
  json_loads text = None →
  parse_deck_payload json_loads (JStr text) = Some (parse_lines ∅ text).
Proof. intros Hl. unfold parse_deck_payload. simpl. by rewrite Hl. Qed.
End parsers.

Lemma is_digit_not_marker (c : ascii) :
  is_digit c = true → c ≠ "#"%char ∧ c ≠ "!"%char.
Proof. destruct c as [[] [] [] [] [] [] [] []]; by vm_compute. Qed.

Lemma line_key_blank (ln : string) : is_empty (strip ln) = true → line_key ln = None.
Proof. unfold line_key. by intros ->. Qed.

Lemma line_key_marker (ln : string) (c : ascii) :
  first_char (strip ln) = Some c → c = "#"%char ∨ c = "!"%char → line_key ln = None.
Proof.
  intros Hc Hm. unfold line_key.
  destruct (strip ln) as [|c' r] eqn:Hs; [done|].
  simpl in Hc. injection Hc as ->. simpl is_empty. cbv iota.
  assert (startswith (String c r) "#" || startswith (String c r) "!" = true) as ->; [|done].
  apply orb_true_iff. rewrite !startswith_first_char. simpl.
  destruct Hm as [->| ->]; auto.
Qed.

Lemma line_key_numeric (ln : string) :
  isdigit (strip ln) = true → line_key ln = Some ("CARD_ID:" +:+ strip ln).
Proof.
  intros Hdigit. pose proof Hdigit as [Hne Hd]%andb_prop.
  unfold line_key. rewrite Hdigit.
  destruct (strip ln) as [|c r]; [done|]. simpl in Hd.
  apply andb_prop in Hd as [[H1 H2]%is_digit_not_marker _].
  simpl is_empty. cbv iota.
  assert (startswith (String c r) "#" = false) as ->.
  { apply not_true_is_false. rewrite startswith_first_char. simpl. congruence. }
  assert (startswith (String c r) "!" = false) as ->.
  { apply not_true_is_false. rewrite startswith_first_char. simpl. congruence. }
  done.
Qed.

Lemma line_key_other (ln : string) :
  is_empty (strip ln) = false →
  first_char (strip ln) ≠ Some "#"%char →
  first_char (strip ln) ≠ Some "!"%char →
  isdigit (strip ln) = false →
  line_key ln = Some (strip ln).
Proof.
  intros Hne H1 H2 Hd. unfold line_key. rewrite Hne, Hd.
  rewrite <- startswith_first_char in H1, H2.
  apply not_true_is_false in H1, H2. by rewrite H1, H2.
Qed.

(** C6, as stated, fails on lines with blanks around them.  A line with a
    blank before [#] is not blank and its first character is not [#], so
    that as stated it counts under its trimmed text, yet the parser skips
    it; a card id with blanks around it is not purely numeric, so that as
    stated it counts under its trimmed text, yet the parser counts it as a
    card id. *)
Lemma padded_lines_read_trimmed :
  first_char padded_comment = Some " "%char
  ∧ stated_line_key padded_comment = Some "#c"
  ∧ parse_deck_payload (λ _, None) (JObj [("ydk", JStr padded_comment)]) = Some ∅
  ∧ isdigit padded_card_id = false
  ∧ stated_line_key padded_card_id = Some "4001"
  ∧ parse_deck_payload (λ _, None) (JObj [("ydk", JStr padded_card_id)])
    = Some {[ "CARD_ID:4001" := 1 ]}.
Proof. split_and!; reflexivity. Qed.

(** C6, amended.  A deck list under [ydk] (in a record with none of the
    three collections) is counted line by line, each line trimmed first:
    the count of a key is the number of lines that give it, and only such
    keys are present; a payload that is the deck list itself and does not
    decode is counted in the same way.  A line gives no key when its
    trimmed text is empty or begins with [#] or [!]; it gives [CARD_ID:]
    followed by its trimmed text when that is purely numeric; in every
    other case it gives its trimmed text.  The text of the example yields
    exactly the two counts of the specification, also when it is the
    payload itself and does not decode. *)
Theorem deck_list_text_counts
    (json_loads : string → option json) (fields : list (string * json)) (text : string) :
  has_section_key fields = false →
  dict_get fields "ydk" = JStr text →
  (∃ counts,
      parse_deck_payload json_loads (JObj fields) = Some counts
      ∧ (∀ k, cget counts k = occurrences k (omap line_key (splitlines text)))
      ∧ (∀ k, k ∈ dom counts ↔ k ∈ omap line_key (splitlines text)))
  ∧ (json_loads text = None →
     parse_deck_payload json_loads (JStr text)
     = parse_deck_payload json_loads (JObj fields))
  ∧ (∀ ln, is_empty (strip ln) = true → line_key ln = None)
  ∧ (∀ ln c, first_char (strip ln) = Some c → c = "#"%char ∨ c = "!"%char →
             line_key ln = None)
  ∧ (∀ ln, isdigit (strip ln) = true → line_key ln = Some ("CARD_ID:" +:+ strip ln))
  ∧ (∀ ln, is_empty (strip ln) = false →
           first_char (strip ln) ≠ Some "#"%char →
           first_char (strip ln) ≠ Some "!"%char →
           isdigit (strip ln) = false →
           line_key ln = Some (strip ln))
  ∧ parse_deck_payload json_loads (JObj [("ydk", JStr example_text)])
    = Some {[ "CARD_ID:4001" := 1; "Dark Hole" := 1 ]}
  ∧ (json_loads example_text = None →
     parse_deck_payload json_loads (JStr example_text)
     = Some {[ "CARD_ID:4001" := 1; "Dark Hole" := 1 ]}).
Proof.
  intros Hkey Hydk. split_and!.
  - exists (parse_lines ∅ text). split_and!.
    + by apply parse_deck_payload_ydk.
    + intros k. by rewrite parse_lines_tally, cget_tally, cget_empty.
    + intros k. rewrite parse_lines_tally. apply tally_dom.
  - intros Hl. rewrite (parse_deck_payload_text _ _ Hl). symmetry.
    by apply parse_deck_payload_ydk.
  - apply line_key_blank.
  - apply line_key_marker.
  - apply line_key_numeric.
  - apply line_key_other.
  - by rewrite (parse_deck_payload_ydk _ _ example_text).
  - intros Hl. by rewrite parse_deck_payload_text.
Qed.

(** The example deck list with a padded comment and a padded card id
    after it, beside another field: an instance of C6. *)
Lemma deck_list_text_counts_witness :
  let text := example_text +:+ LF +:+ padded_comment +:+ LF +:+ padded_card_id in
  ∃ counts,
    parse_deck_payload (λ _, None) (JObj [("id", JNum 7); ("ydk", JStr text)])
    = Some counts
    ∧ (∀ k, cget counts k = occurrences k (omap line_key (splitlines text)))
    ∧ (∀ k, k ∈ dom counts ↔ k ∈ omap line_key (splitlines text)).
Proof.
  apply (deck_list_text_counts (λ _, None)
           [("id", JNum 7);
            ("ydk", JStr (example_text +:+ LF +:+ padded_comment +:+ LF +:+ padded_card_id))]
           (example_text +:+ LF +:+ padded_comment +:+ LF +:+ padded_card_id));
    reflexivity.
Defined.

(** ** Card-reference objects *)

Lemma card_name_card_ref (obj : json) :
  card_ref obj = true → card_name obj = Some (first_nonempty_name obj).
Proof.
  destruct obj as [| | | | |fields]; try done.
  unfold card_ref, card_name, first_nonempty_name, obj_get, dict_get, dict_get_or,
    name_fields.
  simpl omap.
  destruct (assoc "name" fields) as [[| | |[|c1 s1]| |]|];
    destruct (assoc "cleanName" fields) as [[| | |[|c2 s2]| |]|];
    destruct (assoc "cardName" fields) as [[| | |[|c3 s3]| |]|];
    simpl; try done.
Qed.

Lemma recorded_names_card_refs (objs : list json) :
  forallb card_ref objs = true →
  recorded_names objs = Some (omap first_nonempty_name objs).
Proof.
  induction objs as [|obj objs IH]; simpl; [done|].
  intros [Hobj Hobjs]%andb_prop. rewrite (card_name_card_ref _ Hobj), IH by done.
  simpl. by destruct (first_nonempty_name obj).
Qed.

Lemma section_record_ok (fields : list (string * json)) (k : string) :
  section_ok fields k = true →
  section_record (dict_get_or fields k (JArr [])) = Some (section_names fields k).
Proof.
  unfold section_ok, section_record, section_names, section_objs, dict_get_or.
  destruct (assoc k fields) as [[| | | |objs|]|]; try done.
  intros Hobjs. destruct objs as [|obj objs]; [done|].
  exact (recorded_names_card_refs (obj :: objs) Hobjs).
Qed.

(** C8, as stated, fails: in an object whose [name] is present and empty,
    the first field present is [name], yet the name recorded is that of
    [cleanName]. *)
Lemma first_present_field_not_recorded :
  card_ref unnamed_object = true
  ∧ first_present_name unnamed_object = Some EmptyString
  ∧ card_name unnamed_object = Some (Some "Dark Hole")
  ∧ card_name unnamed_object ≠ Some (first_present_name unnamed_object)
  ∧ parse_deck_sections (JObj [("main", JArr [unnamed_object])])
    = Some ({[ "Dark Hole" := 1 ]}, ∅, ∅).
Proof. split_and!; done. Qed.

(** C8, amended.  For a structured payload, each section counts, object by
    object, the trimmed value of the first field among [name], [cleanName],
    [cardName] that holds a string that is not empty; an object without
    such a field adds nothing, and the others count as they would without
    it.  The whole-deck parser counts the same names over the three
    sections together. *)
Theorem structured_names_counted
    (json_loads : string → option json) (fields : list (string * json)) :
  structured fields = true →
  ∃ counts main side extra,
    parse_deck_payload json_loads (JObj fields) = Some counts
    ∧ parse_deck_sections (JObj fields) = Some (main, side, extra)
    ∧ ∀ k,
        cget main k = occurrences k (section_names fields "main")
        ∧ cget side k = occurrences k (section_names fields "side")
        ∧ cget extra k = occurrences k (section_names fields "extra")
        ∧ cget counts k
          = occurrences k (section_names fields "main"
                           ++ section_names fields "extra"
                           ++ section_names fields "side")
        ∧ (k ∈ dom main ↔ k ∈ section_names fields "main")
        ∧ (k ∈ dom side ↔ k ∈ section_names fields "side")
        ∧ (k ∈ dom extra ↔ k ∈ section_names fields "extra").
Proof.
  unfold structured. intros [[[Hkey Hm]%andb_prop He]%andb_prop Hs]%andb_prop.
  exists (tally ∅ (section_names fields "main" ++ section_names fields "extra"
                   ++ section_names fields "side")),
    (tally ∅ (section_names fields "main")),
    (tally ∅ (section_names fields "side")),
    (tally ∅ (section_names fields "extra")).
  split_and!.
  - rewrite (parse_deck_payload_record _ _ Hkey).
    by rewrite !section_record_ok by done.
  - rewrite parse_deck_sections_record. by rewrite !section_record_ok by done.
  - intros k. rewrite !cget_tally, !cget_empty, !tally_dom. split_and!; done.
Qed.

(** A payload with padded, unnamed and empty-named objects: an instance of
    C8. *)
Lemma structured_names_counted_witness :
  section_names [ ("main", JArr [ JObj [("name", JStr " Pot of Greed ")];
                                    JObj [("id", JNum 55)];
                                    unnamed_object;
                                    JObj [("name", JNull);
                                          ("cardName", JStr "Pot of Greed")] ]);
                  ("side", JArr [JObj [("cleanName", JStr "Dark Hole")]]) ] "main"
  = ["Pot of Greed"; "Dark Hole"; "Pot of Greed"]
  ∧ ∃ counts main side extra,
      parse_deck_payload (λ _, None) mixed_record = Some counts
      ∧ parse_deck_sections mixed_record = Some (main, side, extra)
      ∧ cget main "Pot of Greed" = 2 ∧ cget counts "Dark Hole" = 2.
Proof.
  split; [reflexivity|].
  destruct (structured_names_counted (λ _, None)
    [ ("main", JArr [ JObj [("name", JStr " Pot of Greed ")];
                      JObj [("id", JNum 55)];
                      unnamed_object;
                      JObj [("name", JNull); ("cardName", JStr "Pot of Greed")] ]);
      ("side", JArr [JObj [("cleanName", JStr "Dark Hole")]]) ] eq_refl)
    as (counts & main & side & extra & Hc & Hs & Hk).
  exists counts, main, side, extra. split_and!; [done|done|..].
  - by rewrite (proj1 (Hk "Pot of Greed")).
  - destruct (Hk "Dark Hole") as (_ & _ & _ & -> & _). reflexivity.
Defined.

(** C9. For a record with at least one of the keys [main], [extra],
    [side], the whole-deck parser and the section parser raise together or
    return together, and then the combined count of every card is the sum
    of its counts in the three sections. *)
Theorem combined_counts_sum_of_sections
    (json_loads : string → option json) (fields : list (string * json)) :
  has_section_key fields = true →
  match parse_deck_payload json_loads (JObj fields), parse_deck_sections (JObj fields) with
  | Some counts, Some (main, side, extra) =>
      ∀ card, cget counts card = cget main card + cget side card + cget extra card
  | None, None => True
  | _, _ => False
  end.
Proof.
  intros Hkey.
  rewrite (parse_deck_payload_record _ _ Hkey), parse_deck_sections_record.
  destruct (section_record (dict_get_or fields "main" _)) as [main|];
    destruct (section_record (dict_get_or fields "side" _)) as [side|];
    destruct (section_record (dict_get_or fields "extra" _)) as [extra|];
    simpl; try done.
  intros card. rewrite !cget_tally, !occurrences_app, cget_empty. lia.
Qed.

(** The record of the example, with one card in its main deck: an instance
    of C9. *)
Lemma combined_counts_sum_of_sections_witness :
  parse_deck_payload (λ _, None) pot_record = Some {[ "Pot of Greed" := 1 ]}
  ∧ parse_deck_sections pot_record = Some ({[ "Pot of Greed" := 1 ]}, ∅, ∅)
  ∧ match parse_deck_payload (λ _, None) pot_record, parse_deck_sections pot_record with
    | Some counts, Some (main, side, extra) =>
        ∀ card, cget counts card = cget main card + cget side card + cget extra card
    | None, None => True
    | _, _ => False
    end.
Proof.
  split_and!; [reflexivity|reflexivity|].
  apply (combined_counts_sum_of_sections (λ _, None)
           [ ("main", JArr [JObj [("name", JStr "Pot of Greed")]]);
             ("side", JArr []); ("extra", JArr []) ]).
  reflexivity.
Defined.

(** C4, on the code.  The section parser never decodes a string: for every
    string payload it returns three empty mappings, also when the string
    decodes to the record of the example, whose own sections hold one card;
    the whole-deck parser, given the same string, decodes it and counts
    the card. *)
Theorem parse_deck_sections_of_string (text : string) :
  parse_deck_sections (JStr text) = Some (∅, ∅, ∅)
  ∧ parse_deck_sections pot_record = Some ({[ "Pot of Greed" := 1 ]}, ∅, ∅)
  ∧ parse_deck_payload (λ _, Some pot_record) (JStr text)
    = Some {[ "Pot of Greed" := 1 ]}.
Proof.
  split_and!; [done|done|].
  unfold parse_deck_payload. simpl. by destruct (String.length text).
Qed.

(** ** Placement and archetype of an entry *)

Lemma assoc_remove_key_ne (k k' : string) (fields : list (string * json)) :
  k ≠ k' → assoc k' (remove_key k fields) = assoc k' fields.
Proof.
  intros Hne. induction fields as [|[k0 v] fields IH]; simpl; [done|].
  destruct (String.eqb_spec k0 k) as [->|Hk0]; simpl.
  - rewrite IH. destruct (String.eqb_spec k k'); [done|done].
  - by rewrite IH.
Qed.

Lemma assoc_remove_key (k : string) (fields : list (string * json)) :
  assoc k (remove_key k fields) = None.
Proof.
  induction fields as [|[k0 v] fields IH]; simpl; [done|].
  destruct (String.eqb_spec k0 k) as [->|Hk0]; simpl; [done|].
  destruct (String.eqb_spec k0 k); [done|]. apply IH.
Qed.

Lemma resolve_entry_dict (entry_fields : list (string * json)) (payload : json) :
  resolve_entry (JObj entry_fields) payload
  = let raw := py_or (py_or (dict_get entry_fields "placing")
                            (dict_get entry_fields "place"))
                     (dict_get entry_fields "rank") in
    let deck_id := py_or (py_or (py_or (dict_get entry_fields "deckId")
                                       (dict_get entry_fields "id"))
                                (dict_get entry_fields "_id"))
                         (dict_get entry_fields "deckSlug") in
    let archetype := py_or (py_or (py_or (dict_get entry_fields "deckType")
                                         (dict_get entry_fields "archetype"))
                                  (dict_get entry_fields "name"))
                           (JStr "Unknown") in
    if truthy deck_id then
      Some (Some (Resolved (override_placing payload (default SENTINEL (py_int raw)))
                           (override_archetype payload archetype) deck_id))
    else Some None.
Proof. done. Qed.

(** [int] and [str.strip] do not agree on blanks: a literal between
    spaces, line ends or no-break spaces converts, one beside a separator
    0x1c to 0x1f does not, though [strip] would take the separator off. *)
Lemma int_blank_class :
  py_int (JStr " 2 ") = Some 2
  ∧ py_int (JStr (String (ascii_of_nat 160) "2" +:+ LF)) = Some 2
  ∧ py_int (JStr (String (ascii_of_nat 31) "2")) = None
  ∧ strip (String (ascii_of_nat 31) "2") = "2"
  ∧ py_int (JStr "-1_0") = Some (-10)
  ∧ py_int (JStr "1__0") = None
  ∧ py_int (JStr "+ 2") = None.
Proof. split_and!; reflexivity. Qed.

(** C10. When the deck payload is a record whose [placement] does not
    convert to an integer, the entry resolves as it would against the
    same payload without that field: the placement is the entry's own
    (the integer of its placing field, or the sentinel 9999 when that does
    not convert either), and the archetype and the deck reference are what
    the entry and the payload's [deckTypeName] give. *)
Theorem failed_placement_override
    (entry_fields fields : list (string * json)) :
  has_key fields "placement" = true →
  py_int (dict_get fields "placement") = None →
  let entry := JObj entry_fields in
  let raw := py_or (py_or (dict_get entry_fields "placing")
                          (dict_get entry_fields "place"))
                   (dict_get entry_fields "rank") in
  let deck_id := py_or (py_or (py_or (dict_get entry_fields "deckId")
                                     (dict_get entry_fields "id"))
                              (dict_get entry_fields "_id"))
                       (dict_get entry_fields "deckSlug") in
  let archetype := py_or (py_or (py_or (dict_get entry_fields "deckType")
                                       (dict_get entry_fields "archetype"))
                                (dict_get entry_fields "name"))
                         (JStr "Unknown") in
  resolve_entry entry (JObj fields)
    = resolve_entry entry (JObj (remove_key "placement" fields))
  ∧ override_placing (JObj fields) (default SENTINEL (py_int raw))
    = default SENTINEL (py_int raw)
  ∧ resolve_entry entry (JObj fields)
    = if truthy deck_id then
        Some (Some {| r_placing := default SENTINEL (py_int raw);
                      r_archetype := py_or (dict_get fields "deckTypeName") archetype;
                      r_deck_id := deck_id |})
      else Some None.
Proof.
  intros Hkey Hint entry raw deck_id archetype.
  assert (∀ placing, override_placing (JObj fields) placing = placing) as Hplacing.
  { intros placing. simpl. by rewrite Hkey, Hint. }
  assert (∀ placing,
    override_placing (JObj (remove_key "placement" fields)) placing = placing) as Hplacing'.
  { intros placing. simpl. unfold has_key. by rewrite assoc_remove_key. }
  assert (∀ a, override_archetype (JObj (remove_key "placement" fields)) a
               = override_archetype (JObj fields) a) as Harch.
  { intros a. simpl. unfold dict_get, dict_get_or.
    by rewrite assoc_remove_key_ne. }
  subst entry raw deck_id archetype. split_and!.
  - rewrite !resolve_entry_dict. cbv zeta. by rewrite Hplacing, Hplacing', Harch.
  - apply Hplacing.
  - rewrite resolve_entry_dict. cbv zeta. rewrite Hplacing. done.
Qed.

(** An entry placed third whose deck reports a placement that is no
    number: an instance of C10. *)
Lemma failed_placement_override_witness :
  resolve_entry
    (JObj [("placing", JStr "3"); ("deckId", JNum 17); ("deckType", JStr "Burn")])
    (JObj [("placement", JStr "n/a"); ("deckTypeName", JStr "Chaos")])
  = Some (Some {| r_placing := 3; r_archetype := JStr "Chaos"; r_deck_id := JNum 17 |}).
Proof.
  apply (failed_placement_override
           [("placing", JStr "3"); ("deckId", JNum 17); ("deckType", JStr "Burn")]
           [("placement", JStr "n/a"); ("deckTypeName", JStr "Chaos")]);
    reflexivity.
Defined.

(** ** What the parsers return is fit for the tables *)

Section parser_output.
Variable json_loads : string → option json.

Lemma sparse_tally (c : gmap string Z) (names : list string) :
  sparse c → sparse (tally c names).
Proof.
  unfold tally. apply foldl_invariant. intros a n _. by apply sparse_cadd.
Qed.

Lemma sparse_add_from_section (c c' : gmap string Z) (items : json) :
  sparse c → add_from_section c items = Some c' → sparse c'.
Proof.
  intros Hc. rewrite add_from_section_tally.
  destruct (section_record items) as [names|]; simpl; [|done].
  intros [= <-]. by apply sparse_tally.
Qed.

Lemma sparse_parse_lines (text : string) : sparse (parse_lines ∅ text).
Proof. rewrite parse_lines_tally. apply sparse_tally, sparse_empty. Qed.

Lemma parse_deck_payload_at_sparse (fuel : nat) (payload : json) (counts : gmap string Z) :
  parse_deck_payload_at json_loads fuel payload = Some counts → sparse counts.
Proof.
  revert payload counts. induction fuel as [|fuel IH]; intros payload counts;
    destruct payload as [| | |text| |fields]; simpl;
    try (intros [= <-]; apply sparse_empty); try done.
  - destruct (has_section_key fields).
    + destruct (add_from_section ∅ _) as [c1|] eqn:H1; simpl; [|done].
      destruct (add_from_section c1 _) as [c2|] eqn:H2; simpl; [|done].
      intros H3. pose proof sparse_empty.
      eauto using sparse_add_from_section.
    + destruct (dict_get fields "ydk"); intros [= <-];
        first [apply sparse_empty | apply sparse_parse_lines].
  - destruct (json_loads text ≫= parse_deck_payload_at json_loads fuel) as [c|] eqn:Hc.
    + intros [= <-]. destruct (json_loads text) as [maybe|]; simpl in Hc; [|done].
      by apply (IH maybe).
    + intros [= <-]. apply sparse_parse_lines.
  - destruct (has_section_key fields).
    + destruct (add_from_section ∅ _) as [c1|] eqn:H1; simpl; [|done].
      destruct (add_from_section c1 _) as [c2|] eqn:H2; simpl; [|done].
      intros H3. pose proof sparse_empty.
      eauto using sparse_add_from_section.
    + destruct (dict_get fields "ydk"); intros [= <-];
        first [apply sparse_empty | apply sparse_parse_lines].
Qed.

Lemma parse_deck_sections_sparse (payload : json) (main side extra : gmap string Z) :
  parse_deck_sections payload = Some (main, side, extra) →
  sparse main ∧ sparse side ∧ sparse extra.
Proof.
  destruct payload as [| | | | |fields]; simpl;
    try (intros [= <- <- <-]; split_and!; apply sparse_empty).
  destruct (add_from_section ∅ (dict_get_or fields "main" _)) as [c1|] eqn:H1; simpl; [|done].
  destruct (add_from_section ∅ (dict_get_or fields "side" _)) as [c2|] eqn:H2; simpl; [|done].
  destruct (add_from_section ∅ (dict_get_or fields "extra" _)) as [c3|] eqn:H3; simpl; [|done].
  intros [= <- <- <-]. pose proof sparse_empty.
  split_and!; eauto using sparse_add_from_section.
Qed.

(** Every deck the two parsers make of a payload holds positive quantities
    only. *)
Lemma deck_of_payload_parsed (payload : json) (placing cut_size : Z)
    (archetype : string) (d : deck) :
  deck_of_payload json_loads payload placing cut_size archetype = Some d →
  parsed_deck d.
Proof.
  unfold deck_of_payload, parse_deck_payload.
  destruct (parse_deck_payload_at _ _ payload) as [counts|] eqn:Hc; simpl; [|done].
  destruct (parse_deck_sections payload) as [[[main side] extra]|] eqn:Hs; simpl; [|done].
  intros [= <-]. unfold parsed_deck. simpl.
  apply parse_deck_payload_at_sparse in Hc.
  apply parse_deck_sections_sparse in Hs as (? & ? & ?). done.
Qed.

(** A string payload never raises: what the decoding or the decoded value
    raises is caught, and the text is read as a deck list. *)
Lemma parse_deck_payload_string_total (text : string) :
  is_Some (parse_deck_payload json_loads (JStr text)).
Proof.
  unfold parse_deck_payload. simpl.
  by destruct (json_loads text ≫= _).
Qed.

(** With a decoder whose decoded strings are shorter than their encodings,
    as those of [json.loads] are, the depth of calls left does not show:
    any two depths that cover the payload give the same answer. *)
Hypothesis json_loads_shrinks :
  ∀ s s', json_loads s = Some (JStr s') → (String.length s' < String.length s)%nat.

Lemma parse_deck_payload_at_enough (fuel fuel' : nat) (payload : json) :
  (payload_depth payload ≤ fuel)%nat → (payload_depth payload ≤ fuel')%nat →
  parse_deck_payload_at json_loads fuel payload
  = parse_deck_payload_at json_loads fuel' payload.
Proof.
  revert fuel' payload. induction fuel as [|fuel IH]; intros fuel' payload;
    destruct payload as [| | |text| |fields]; destruct fuel' as [|fuel'];
    simpl; try done; try lia.
  intros Hf Hf'. destruct (json_loads text) as [maybe|] eqn:Hl; simpl; [|done].
  rewrite (IH fuel' maybe); [done|..];
    destruct maybe as [| | |s'| |]; simpl; try lia;
    apply json_loads_shrinks in Hl; lia.
Qed.

Lemma parse_deck_payload_any_depth (fuel : nat) (payload : json) :
  (payload_depth payload ≤ fuel)%nat →
  parse_deck_payload_at json_loads fuel payload = parse_deck_payload json_loads payload.
Proof. intros Hf. by apply parse_deck_payload_at_enough. Qed.
End parser_output.

(** ** The tables in closed form *)

Section closed_forms.
Implicit Types (c m : gmap string Z) (t : gmap string (gmap string Z)).
Implicit Types (st : tables) (d : deck) (k card tier a b : string) (q : Z).

Lemma tier_labels_NoDup : NoDup tier_labels.
Proof. apply (bool_decide_unpack (NoDup tier_labels)). by vm_compute. Qed.

Lemma tiers_applicable_NoDup (p n : Z) : NoDup (tiers_applicable p n).
Proof.
  apply (sublist_NoDup _ tier_labels); [apply tier_labels_NoDup|].
  rewrite tiers_applicable_filter. apply fmap_sublist, sublist_filter.
Qed.

Lemma tiers_applicable_labels (p n : Z) tier :
  tier ∈ tiers_applicable p n → tier ∈ tier_labels.
Proof.
  rewrite tiers_applicable_filter. intros ([l thr] & -> & Hin)%list_elem_of_fmap.
  apply list_elem_of_filter in Hin as [_ Hin]. unfold tier_labels.
  apply list_elem_of_fmap. by exists (l, thr).
Qed.

Lemma occurrences_nonneg k (l : list string) : 0 ≤ occurrences k l.
Proof. unfold occurrences. lia. Qed.

Lemma occurrences_NoDup k (l : list string) :
  NoDup l → occurrences k l = indicator (bool_decide (k ∈ l)).
Proof.
  induction 1 as [|x l Hx Hnd IH].
  - done.
  - rewrite occurrences_cons, IH. unfold indicator.
    destruct (decide (x = k)) as [->|Hne].
    + rewrite (bool_decide_eq_false_2 (k ∈ l)) by done.
      by rewrite bool_decide_eq_true_2 by left.
    + destruct (decide (k ∈ l)) as [Hin|Hin].
      * rewrite !bool_decide_eq_true_2; [done|by right|done].
      * rewrite !bool_decide_eq_false_2; [done| |done].
        rewrite elem_of_cons. intros [?|?]; congruence.
Qed.

Lemma occurrences_tiers (p n : Z) tier :
  occurrences tier (tiers_applicable p n)
  = indicator (bool_decide (tier ∈ tiers_applicable p n)).
Proof. apply occurrences_NoDup, tiers_applicable_NoDup. Qed.

Lemma occurrences_keys m card :
  occurrences card (elements (dom m)) = indicator (holds m card).
Proof.
  rewrite occurrences_NoDup by apply NoDup_elements. unfold holds, indicator.
  destruct (decide (card ∈ dom m)).
  - rewrite !bool_decide_eq_true_2; [done..|]. by apply elem_of_elements.
  - rewrite !bool_decide_eq_false_2; [done..|]. by rewrite elem_of_elements.
Qed.

Lemma occurrences_map_keys m card :
  occurrences card (map_to_list m).*1 = indicator (holds m card).
Proof.
  rewrite occurrences_NoDup by apply NoDup_fst_map_to_list. unfold holds, indicator.
  assert (card ∈ (map_to_list m).*1 ↔ card ∈ dom m) as Hiff.
  { rewrite elem_of_dom, list_elem_of_fmap. split.
    - intros ([k q] & -> & Hin). apply elem_of_map_to_list in Hin. by exists q.
    - intros [q Hq]. exists (card, q). split; [done|]. by apply elem_of_map_to_list. }
  destruct (decide (card ∈ dom m)).
  - rewrite !bool_decide_eq_true_2; [done..|]. by apply Hiff.
  - rewrite !bool_decide_eq_false_2; [done..|]. by rewrite Hiff.
Qed.

Lemma cget_cadd2 t a b q a' b' :
  cget (cget2 (cadd2 t a b q) a') b'
  = cget (cget2 t a') b' + (if decide (a = a' ∧ b = b') then q else 0).
Proof.
  rewrite cget2_cadd2. destruct (decide (a = a')) as [->|Ha].
  - rewrite cget_cadd. repeat case_decide; subst; try lia; naive_solver.
  - rewrite decide_False by naive_solver. lia.
Qed.

(** A loop of [t[k1][k2] += q] whose keys and amount depend on the item. *)
Lemma cget_foldl_cadd2 {X} (k1 k2 : X → string) (amount : X → Z) (l : list X) t a b :
  cget (cget2 (foldl (λ acc x, cadd2 acc (k1 x) (k2 x) (amount x)) t l) a) b
  = cget (cget2 t a) b
    + foldr (λ x s, (if decide (k1 x = a ∧ k2 x = b) then amount x else 0) + s) 0 l.
Proof.
  revert t. induction l as [|x l IH]; intros t; simpl; [lia|].
  rewrite IH, cget_cadd2. lia.
Qed.

Lemma foldr_if_first {X} (k1 : X → string) (v : X → Z) (l : list X) a (P : Prop)
    `{!Decision P} :
  foldr (λ x s, (if decide (k1 x = a ∧ P) then v x else 0) + s) 0 l
  = if decide P then foldr (λ x s, (if decide (k1 x = a) then v x else 0) + s) 0 l else 0.
Proof.
  induction l as [|x l IH]; simpl; [by case_decide|].
  rewrite IH. repeat case_decide; try lia; naive_solver.
Qed.

Lemma foldr_if_second {X} (k2 : X → string) (v : X → Z) (l : list X) b (P : Prop)
    `{!Decision P} :
  foldr (λ x s, (if decide (P ∧ k2 x = b) then v x else 0) + s) 0 l
  = if decide P then foldr (λ x s, (if decide (k2 x = b) then v x else 0) + s) 0 l else 0.
Proof.
  induction l as [|x l IH]; simpl; [by case_decide|].
  rewrite IH. repeat case_decide; try lia; naive_solver.
Qed.

Lemma foldr_ones (l : list string) k :
  foldr (λ x s, (if decide (x = k) then 1 else 0) + s) 0 l = occurrences k l.
Proof.
  induction l as [|x l IH]; simpl; [done|]. by rewrite IH, occurrences_cons.
Qed.

Lemma foldr_total_for (items : list (string * Z)) k :
  foldr (λ x s, (if decide (x.1 = k) then x.2 else 0) + s) 0 items = total_for k items.
Proof.
  induction items as [|x items IH]; simpl; [done|].
  rewrite IH. fold (total_for k items). case_decide; lia.
Qed.

Lemma cget_add_copies tiers t (items : list (string * Z)) a b :
  cget (cget2 (add_copies tiers t items) a) b
  = cget (cget2 t a) b + total_for a items * occurrences b tiers.
Proof.
  unfold add_copies. revert t. induction items as [|[card q] items IH]; intros t; simpl.
  - lia.
  - rewrite IH. rewrite (cget_foldl_cadd2 (λ _, card) (λ tier, tier) (λ _, q)).
    fold (total_for a items).
    assert (foldr (λ (x : string) s, (if decide (card = a ∧ x = b) then q else 0) + s) 0 tiers
            = if decide (card = a) then q * occurrences b tiers else 0) as ->.
    { clear. induction tiers as [|x tiers IH]; simpl.
      - case_decide; unfold occurrences; simpl; lia.
      - rewrite IH, occurrences_cons. repeat case_decide; try lia; naive_solver. }
    case_decide; lia.
Qed.

Lemma add_presence_copies tiers t (cards : list string) :
  add_presence tiers t cards = add_copies tiers t ((λ card, (card, 1)) <$> cards).
Proof. unfold add_presence, add_copies. by rewrite foldl_fmap. Qed.

Lemma total_for_ones (cards : list string) k :
  total_for k ((λ card, (card, 1)) <$> cards) = occurrences k cards.
Proof.
  induction cards as [|x cards IH]; [done|].
  rewrite fmap_cons, total_for_cons, IH, occurrences_cons. simpl. case_decide; lia.
Qed.

Lemma cget_add_presence tiers t (cards : list string) a b :
  cget (cget2 (add_presence tiers t cards) a) b
  = cget (cget2 t a) b + occurrences a cards * occurrences b tiers.
Proof. by rewrite add_presence_copies, cget_add_copies, total_for_ones. Qed.

Lemma sum_over_cons (g : deck → Z) d decks :
  sum_over g (d :: decks) = g d + sum_over g decks.
Proof. done. Qed.

(** A reading that every deck raises by an amount of its own is, after a
    run, what it was plus the sum of the amounts. *)
Lemma run_from_sum (f : tables → Z) (g : deck → Z) :
  (∀ st d, f (observe st d) = f st + g d) →
  ∀ decks st, f (run_from st decks) = f st + sum_over g decks.
Proof.
  intros Hstep. induction decks as [|d decks IH]; intros st.
  - unfold sum_over. simpl. lia.
  - unfold run_from in *. cbn [foldl]. rewrite IH, Hstep, sum_over_cons. lia.
Qed.

Lemma run_sum (f : tables → Z) (g : deck → Z) decks :
  f no_tables = 0 →
  (∀ st d, f (observe st d) = f st + g d) →
  f (run decks) = sum_over g decks.
Proof. intros H0 Hstep. unfold run. rewrite (run_from_sum f g Hstep), H0. lia. Qed.

Lemma cget2_empty a b : cget (cget2 ∅ a) b = 0.
Proof. unfold cget2. rewrite lookup_empty. simpl. apply cget_empty. Qed.
End closed_forms.

Section run_closed_forms.
Implicit Types (st : tables) (d : deck) (decks : list deck) (card tier a : string).

Lemma indicator_and (x y : bool) : indicator x * indicator y = indicator (x && y).
Proof. by destruct x, y. Qed.

Lemma indicator_mul (x : bool) (q : Z) : q * indicator x = if x then q else 0.
Proof. destruct x; simpl; lia. Qed.

Lemma holds_all_ms d card :
  bool_decide (card ∈ elements (all_ms d))
  = holds (main_counts d) card || holds (side_counts d) card.
Proof.
  unfold holds, all_ms.
  destruct (decide (card ∈ dom (main_counts d))) as [Hm|Hm];
    destruct (decide (card ∈ dom (side_counts d))) as [Hs|Hs];
    rewrite ?(bool_decide_eq_true_2 _ Hm), ?(bool_decide_eq_true_2 _ Hs),
      ?(bool_decide_eq_false_2 _ Hm), ?(bool_decide_eq_false_2 _ Hs); simpl;
    first [ apply bool_decide_eq_true_2 | apply bool_decide_eq_false_2 ];
    rewrite elem_of_elements, elem_of_union; tauto.
Qed.

Lemma total_for_ms d card :
  total_for card ((λ card, (card, ms_qty d card)) <$> elements (all_ms d)) = ms_qty d card.
Proof.
  rewrite total_for_keys by apply NoDup_elements.
  case_decide as Hin; [done|].
  rewrite elem_of_elements in Hin. unfold all_ms in Hin.
  apply not_elem_of_union in Hin as [Hm Hs]. apply not_elem_of_dom in Hm, Hs.
  unfold ms_qty. rewrite (cget_absent _ _ Hm), (cget_absent _ _ Hs). lia.
Qed.

Lemma cget_foldl_ones (c : gmap string Z) (l : list string) k :
  cget (foldl (λ acc x, cadd acc x 1) c l) k = cget c k + occurrences k l.
Proof.
  rewrite (foldl_keys_items (λ _, 1)), cget_add_items. by rewrite total_for_ones.
Qed.

(** One deck on each table, read at a key. *)
Lemma observe_by_cut st d card tier :
  cget (cget2 (per_card_by_cut (observe st d)) card) tier
  = cget (cget2 (per_card_by_cut st) card) tier
    + indicator (made_cut tier d && holds (counts d) card)
  ∧ cget (cget2 (per_card_by_cut_main (observe st d)) card) tier
  = cget (cget2 (per_card_by_cut_main st) card) tier
    + indicator (made_cut tier d && holds (main_counts d) card)
  ∧ cget (cget2 (per_card_by_cut_side (observe st d)) card) tier
  = cget (cget2 (per_card_by_cut_side st) card) tier
    + indicator (made_cut tier d && holds (side_counts d) card)
  ∧ cget (cget2 (per_card_by_cut_extra (observe st d)) card) tier
  = cget (cget2 (per_card_by_cut_extra st) card) tier
    + indicator (made_cut tier d && holds (extra_counts d) card)
  ∧ cget (cget2 (per_card_by_cut_main_side (observe st d)) card) tier
  = cget (cget2 (per_card_by_cut_main_side st) card) tier
    + indicator (made_cut tier d
                 && (holds (main_counts d) card || holds (side_counts d) card)).
Proof.
  unfold observe.
  cbn [per_card_by_cut per_card_by_cut_main per_card_by_cut_side
       per_card_by_cut_extra per_card_by_cut_main_side].
  rewrite !cget_add_presence, !occurrences_tiers, !occurrences_keys,
    !occurrences_map_keys.
  rewrite (occurrences_NoDup card (elements (all_ms d))) by apply NoDup_elements.
  rewrite holds_all_ms. fold (made_cut tier d).
  rewrite !indicator_and.
  split_and!; f_equal; f_equal; apply andb_comm.
Qed.

Lemma observe_qty_by_cut st d card tier :
  cget (cget2 (per_card_qty_by_cut (observe st d)) card) tier
  = cget (cget2 (per_card_qty_by_cut st) card) tier
    + (if made_cut tier d then cget (counts d) card else 0)
  ∧ cget (cget2 (per_card_qty_by_cut_main (observe st d)) card) tier
  = cget (cget2 (per_card_qty_by_cut_main st) card) tier
    + (if made_cut tier d then cget (main_counts d) card else 0)
  ∧ cget (cget2 (per_card_qty_by_cut_side (observe st d)) card) tier
  = cget (cget2 (per_card_qty_by_cut_side st) card) tier
    + (if made_cut tier d then cget (side_counts d) card else 0)
  ∧ cget (cget2 (per_card_qty_by_cut_extra (observe st d)) card) tier
  = cget (cget2 (per_card_qty_by_cut_extra st) card) tier
    + (if made_cut tier d then cget (extra_counts d) card else 0)
  ∧ cget (cget2 (per_card_qty_by_cut_main_side (observe st d)) card) tier
  = cget (cget2 (per_card_qty_by_cut_main_side st) card) tier
    + (if made_cut tier d then ms_qty d card else 0).
Proof.
  unfold observe.
  cbn [per_card_qty_by_cut per_card_qty_by_cut_main per_card_qty_by_cut_side
       per_card_qty_by_cut_extra per_card_qty_by_cut_main_side].
  rewrite !cget_add_copies, !occurrences_tiers, !total_for_map_to_list, total_for_ms.
  fold (made_cut tier d). by rewrite !indicator_mul.
Qed.

Lemma observe_archetypes st d a tier :
  cget (per_archetype_total (observe st d)) a
  = cget (per_archetype_total st) a + indicator (of_archetype a d)
  ∧ cget (cget2 (per_archetype_by_cut (observe st d)) a) tier
  = cget (cget2 (per_archetype_by_cut st) a) tier
    + indicator (of_archetype a d && made_cut tier d)
  ∧ cget (per_deck_cut_total (observe st d)) tier
  = cget (per_deck_cut_total st) tier + indicator (made_cut tier d).
Proof.
  unfold observe. cbn [per_archetype_total per_archetype_by_cut per_deck_cut_total].
  split_and!.
  - rewrite cget_cadd. unfold of_archetype, indicator.
    case_decide as Ha; [rewrite bool_decide_eq_true_2 by done; by subst|].
    rewrite bool_decide_eq_false_2 by done. lia.
  - rewrite (cget_foldl_cadd2 (λ _, archetype d) (λ x, x) (λ _, 1)).
    assert (∀ l : list string,
      foldr (λ x s, (if decide (archetype d = a ∧ x = tier) then 1 else 0) + s) 0 l
      = indicator (of_archetype a d) * occurrences tier l) as ->.
    { induction l as [|x l IH]; simpl; [unfold occurrences; simpl; lia|].
      rewrite IH, occurrences_cons. unfold of_archetype, indicator.
      destruct (decide (archetype d = a)).
      - rewrite bool_decide_eq_true_2 by done. repeat case_decide; try lia; naive_solver.
      - rewrite bool_decide_eq_false_2 by done. repeat case_decide; try lia; naive_solver. }
    rewrite occurrences_tiers. fold (made_cut tier d). by rewrite indicator_and.
  - by rewrite cget_foldl_ones, occurrences_tiers.
Qed.

Lemma observe_card_archetype st d card a :
  cget (cget2 (per_card_by_archetype (observe st d)) card) a
  = cget (cget2 (per_card_by_archetype st) card) a
    + indicator (of_archetype a d && holds (counts d) card)
  ∧ cget (cget2 (per_archetype_card_presence (observe st d)) a) card
  = cget (cget2 (per_archetype_card_presence st) a) card
    + indicator (of_archetype a d && holds (counts d) card)
  ∧ cget (cget2 (per_card_qty_by_archetype (observe st d)) card) a
  = cget (cget2 (per_card_qty_by_archetype st) card) a
    + (if of_archetype a d then cget (counts d) card else 0)
  ∧ cget (cget2 (per_archetype_card_qty (observe st d)) a) card
  = cget (cget2 (per_archetype_card_qty st) a) card
    + (if of_archetype a d then cget (counts d) card else 0).
Proof.
  unfold observe.
  cbn [per_card_by_archetype per_archetype_card_presence
       per_card_qty_by_archetype per_archetype_card_qty].
  rewrite (cget_foldl_cadd2 (λ x : string, x) (λ _, archetype d) (λ _, 1)).
  rewrite (cget_foldl_cadd2 (λ _ : string, archetype d) (λ x, x) (λ _, 1)).
  rewrite (cget_foldl_cadd2 (λ x : string * Z, x.1) (λ _, archetype d) (λ x, x.2)).
  rewrite (cget_foldl_cadd2 (λ _ : string * Z, archetype d) (λ x, x.1) (λ x, x.2)).
  rewrite (foldr_if_first (λ x : string, x) (λ _, 1) _ card (archetype d = a)).
  rewrite (foldr_if_second (λ x : string, x) (λ _, 1) _ card (archetype d = a)).
  rewrite (foldr_if_first (λ x : string * Z, x.1) (λ x, x.2) _ card (archetype d = a)).
  rewrite (foldr_if_second (λ x : string * Z, x.1) (λ x, x.2) _ card (archetype d = a)).
  rewrite foldr_ones, foldr_total_for, occurrences_keys, total_for_map_to_list.
  unfold of_archetype.
  destruct (decide (archetype d = a)).
  - by rewrite !bool_decide_eq_true_2 by done.
  - by rewrite !bool_decide_eq_false_2 by done.
Qed.
End run_closed_forms.

(** X1. After a run, the total of a card is the sum over the decks of the
    copies the deck holds, in the combined table and in each of the three
    section tables. *)
Theorem totals_are_sums (decks : list deck) (card : string) :
  cget (per_card_total (run decks)) card
  = sum_over (λ d, cget (counts d) card) decks
  ∧ cget (per_card_total_main (run decks)) card
    = sum_over (λ d, cget (main_counts d) card) decks
  ∧ cget (per_card_total_side (run decks)) card
    = sum_over (λ d, cget (side_counts d) card) decks
  ∧ cget (per_card_total_extra (run decks)) card
    = sum_over (λ d, cget (extra_counts d) card) decks.
Proof.
  split_and!.
  - apply (run_sum (λ st, cget (per_card_total st) card)); [apply cget_empty|].
    intros st d. apply cget_add_quantities.
  - apply (run_sum (λ st, cget (per_card_total_main st) card)); [apply cget_empty|].
    intros st d. apply cget_add_quantities.
  - apply (run_sum (λ st, cget (per_card_total_side st) card)); [apply cget_empty|].
    intros st d. apply cget_add_quantities.
  - apply (run_sum (λ st, cget (per_card_total_extra st) card)); [apply cget_empty|].
    intros st d. apply cget_add_quantities.
Qed.

(** X2. After a run, the presence count of a card at a tier is the number
    of decks that qualify for the tier and hold the card, however many
    copies they hold; in each section table the card is looked for in that
    section, and in the main+side table in either of the two. *)
Theorem presence_by_cut_counts_decks (decks : list deck) (card tier : string) :
  cget (cget2 (per_card_by_cut (run decks)) card) tier
  = sum_over (λ d, indicator (made_cut tier d && holds (counts d) card)) decks
  ∧ cget (cget2 (per_card_by_cut_main (run decks)) card) tier
    = sum_over (λ d, indicator (made_cut tier d && holds (main_counts d) card)) decks
  ∧ cget (cget2 (per_card_by_cut_side (run decks)) card) tier
    = sum_over (λ d, indicator (made_cut tier d && holds (side_counts d) card)) decks
  ∧ cget (cget2 (per_card_by_cut_extra (run decks)) card) tier
    = sum_over (λ d, indicator (made_cut tier d && holds (extra_counts d) card)) decks
  ∧ cget (cget2 (per_card_by_cut_main_side (run decks)) card) tier
    = sum_over (λ d, indicator (made_cut tier d
                                && (holds (main_counts d) card
                                    || holds (side_counts d) card))) decks.
Proof.
  split_and!.
  - apply (run_sum (λ st, cget (cget2 (per_card_by_cut st) card) tier));
      [apply cget2_empty|]. intros st d. apply observe_by_cut.
  - apply (run_sum (λ st, cget (cget2 (per_card_by_cut_main st) card) tier));
      [apply cget2_empty|]. intros st d. apply observe_by_cut.
  - apply (run_sum (λ st, cget (cget2 (per_card_by_cut_side st) card) tier));
      [apply cget2_empty|]. intros st d. apply observe_by_cut.
  - apply (run_sum (λ st, cget (cget2 (per_card_by_cut_extra st) card) tier));
      [apply cget2_empty|]. intros st d. apply observe_by_cut.
  - apply (run_sum (λ st, cget (cget2 (per_card_by_cut_main_side st) card) tier));
      [apply cget2_empty|]. intros st d. apply observe_by_cut.
Qed.

(** X3. After a run, the quantity of a card at a tier is the sum, over the
    decks that qualify for the tier, of the copies the deck holds; in the
    main+side table, of its main and side copies together. *)
Theorem quantity_by_cut_sums_copies (decks : list deck) (card tier : string) :
  cget (cget2 (per_card_qty_by_cut (run decks)) card) tier
  = sum_over (λ d, if made_cut tier d then cget (counts d) card else 0) decks
  ∧ cget (cget2 (per_card_qty_by_cut_main (run decks)) card) tier
    = sum_over (λ d, if made_cut tier d then cget (main_counts d) card else 0) decks
  ∧ cget (cget2 (per_card_qty_by_cut_side (run decks)) card) tier
    = sum_over (λ d, if made_cut tier d then cget (side_counts d) card else 0) decks
  ∧ cget (cget2 (per_card_qty_by_cut_extra (run decks)) card) tier
    = sum_over (λ d, if made_cut tier d then cget (extra_counts d) card else 0) decks
  ∧ cget (cget2 (per_card_qty_by_cut_main_side (run decks)) card) tier
    = sum_over (λ d, if made_cut tier d
                     then cget (main_counts d) card + cget (side_counts d) card
                     else 0) decks.
Proof.
  split_and!.
  - apply (run_sum (λ st, cget (cget2 (per_card_qty_by_cut st) card) tier));
      [apply cget2_empty|]. intros st d. apply observe_qty_by_cut.
  - apply (run_sum (λ st, cget (cget2 (per_card_qty_by_cut_main st) card) tier));
      [apply cget2_empty|]. intros st d. apply observe_qty_by_cut.
  - apply (run_sum (λ st, cget (cget2 (per_card_qty_by_cut_side st) card) tier));
      [apply cget2_empty|]. intros st d. apply observe_qty_by_cut.
  - apply (run_sum (λ st, cget (cget2 (per_card_qty_by_cut_extra st) card) tier));
      [apply cget2_empty|]. intros st d. apply observe_qty_by_cut.
  - apply (run_sum (λ st, cget (cget2 (per_card_qty_by_cut_main_side st) card) tier));
      [apply cget2_empty|]. intros st d. apply observe_qty_by_cut.
Qed.

(** X4. After a run, the total of an archetype is the number of its decks,
    its count at a tier is the number of its decks that qualify for the
    tier, and the deck total of a tier is the number of decks of any
    archetype that qualify for it. *)
Theorem archetype_tallies_count_decks (decks : list deck) (a tier : string) :
  cget (per_archetype_total (run decks)) a
  = sum_over (λ d, indicator (of_archetype a d)) decks
  ∧ cget (cget2 (per_archetype_by_cut (run decks)) a) tier
    = sum_over (λ d, indicator (of_archetype a d && made_cut tier d)) decks
  ∧ cget (per_deck_cut_total (run decks)) tier
    = sum_over (λ d, indicator (made_cut tier d)) decks.
Proof.
  split_and!.
  - apply (run_sum (λ st, cget (per_archetype_total st) a)); [apply cget_empty|].
    intros st d. apply (observe_archetypes st d a tier).
  - apply (run_sum (λ st, cget (cget2 (per_archetype_by_cut st) a) tier));
      [apply cget2_empty|]. intros st d. apply observe_archetypes.
  - apply (run_sum (λ st, cget (per_deck_cut_total st) tier)); [apply cget_empty|].
    intros st d. apply (observe_archetypes st d a tier).
Qed.

(** X5. The two views of cards against archetypes agree after every run:
    the count of an archetype under a card is the count of the card under
    the archetype, for presence (the number of decks of the archetype that
    hold the card) and for quantity (the copies those decks hold). *)
Theorem card_archetype_views_agree (decks : list deck) (card a : string) :
  cget (cget2 (per_card_by_archetype (run decks)) card) a
  = cget (cget2 (per_archetype_card_presence (run decks)) a) card
  ∧ cget (cget2 (per_card_qty_by_archetype (run decks)) card) a
    = cget (cget2 (per_archetype_card_qty (run decks)) a) card
  ∧ cget (cget2 (per_card_by_archetype (run decks)) card) a
    = sum_over (λ d, indicator (of_archetype a d && holds (counts d) card)) decks
  ∧ cget (cget2 (per_card_qty_by_archetype (run decks)) card) a
    = sum_over (λ d, if of_archetype a d then cget (counts d) card else 0) decks.
Proof.
  assert (cget (cget2 (per_card_by_archetype (run decks)) card) a
    = sum_over (λ d, indicator (of_archetype a d && holds (counts d) card)) decks) as H1.
  { apply (run_sum (λ st, cget (cget2 (per_card_by_archetype st) card) a));
      [apply cget2_empty|]. intros st d. apply observe_card_archetype. }
  assert (cget (cget2 (per_archetype_card_presence (run decks)) a) card
    = sum_over (λ d, indicator (of_archetype a d && holds (counts d) card)) decks) as H2.
  { apply (run_sum (λ st, cget (cget2 (per_archetype_card_presence st) a) card));
      [apply cget2_empty|]. intros st d. apply observe_card_archetype. }
  assert (cget (cget2 (per_card_qty_by_archetype (run decks)) card) a
    = sum_over (λ d, if of_archetype a d then cget (counts d) card else 0) decks) as H3.
  { apply (run_sum (λ st, cget (cget2 (per_card_qty_by_archetype st) card) a));
      [apply cget2_empty|]. intros st d. apply observe_card_archetype. }
  assert (cget (cget2 (per_archetype_card_qty (run decks)) a) card
    = sum_over (λ d, if of_archetype a d then cget (counts d) card else 0) decks) as H4.
  { apply (run_sum (λ st, cget (cget2 (per_archetype_card_qty st) a) card));
      [apply cget2_empty|]. intros st d. apply observe_card_archetype. }
  split_and!; congruence.
Qed.

Section cut_tables.
Implicit Types (st : tables) (d : deck) (t : gmap string (gmap string Z)).

Lemma tiers_applicable_none (p n : Z) :
  n < p ∨ 64 < p ∨ n ≤ 0 → tiers_applicable p n = [].
Proof.
  intros Hpn. rewrite tiers_applicable_filter, filter_none; [done|].
  intros [l thr] Hin [Hthr Hp]. simpl in *.
  assert (1 ≤ thr ≤ 64) by (by apply (CUT_TIERS_bounds l)). lia.
Qed.

Lemma add_copies_no_tier t (items : list (string * Z)) : add_copies [] t items = t.
Proof. unfold add_copies. induction items as [|item items IH]; simpl; done. Qed.

Lemma add_presence_no_tier t (cards : list string) : add_presence [] t cards = t.
Proof. by rewrite add_presence_copies, add_copies_no_tier. Qed.

Lemma tier_keyed_empty : tier_keyed ∅.
Proof. apply map_Forall_empty. Qed.

Lemma tier_keyed_cadd2 t (card tier : string) (q : Z) :
  tier ∈ tier_labels → tier_keyed t → tier_keyed (cadd2 t card tier q).
Proof.
  intros Htier Ht. unfold cadd2. apply map_Forall_insert_2; [|done].
  intros tier'. unfold cadd. rewrite dom_insert, elem_of_union, elem_of_singleton.
  intros [->|Hin]; [done|].
  unfold cget2 in Hin. destruct (t !! card) as [inner|] eqn:Hcard; simpl in Hin.
  - by apply (Ht card inner).
  - by rewrite dom_empty in Hin.
Qed.

Lemma tier_keyed_add_copies (p n : Z) t (items : list (string * Z)) :
  tier_keyed t → tier_keyed (add_copies (tiers_applicable p n) t items).
Proof.
  unfold add_copies. apply foldl_invariant. intros acc item _.
  apply foldl_invariant. intros acc' tier Htier.
  apply tier_keyed_cadd2. by apply (tiers_applicable_labels p n).
Qed.

Lemma tier_keyed_add_presence (p n : Z) t (cards : list string) :
  tier_keyed t → tier_keyed (add_presence (tiers_applicable p n) t cards).
Proof. rewrite add_presence_copies. apply tier_keyed_add_copies. Qed.

Lemma observe_tier_keyed st d : tier_keyed_tables st → tier_keyed_tables (observe st d).
Proof.
  intros ((?&?&?&?&?&?&?&?&?&?) & ? & Hflat).
  unfold tier_keyed_tables, observe.
  cbn [per_card_by_cut per_card_qty_by_cut per_card_by_cut_main per_card_by_cut_side
       per_card_by_cut_extra per_card_by_cut_main_side per_card_qty_by_cut_main
       per_card_qty_by_cut_side per_card_qty_by_cut_extra
       per_card_qty_by_cut_main_side per_archetype_by_cut per_deck_cut_total].
  split_and!;
    try (by apply tier_keyed_add_presence);
    try (by apply tier_keyed_add_copies).
  - apply foldl_invariant; [|done]. intros acc tier Htier.
    apply tier_keyed_cadd2. by apply (tiers_applicable_labels (placing d) (cut_size d)).
  - apply (foldl_invariant (λ c : gmap string Z, ∀ tier, tier ∈ dom c → tier ∈ tier_labels));
      [|done].
    intros acc tier Htier Hacc tier'. unfold cadd.
    rewrite dom_insert, elem_of_union, elem_of_singleton. intros [->|Hin]; [|by apply Hacc].
    by apply (tiers_applicable_labels (placing d) (cut_size d)).
Qed.

Lemma sum_over_le (g h : deck → Z) (decks : list deck) :
  Forall (λ d, g d ≤ h d) decks → sum_over g decks ≤ sum_over h decks.
Proof.
  induction 1 as [|d decks Hd _ IH]; [done|]. rewrite !sum_over_cons. lia.
Qed.

Lemma holds_at_most_copies (m : gmap string Z) (card : string) :
  sparse m → indicator (holds m card) ≤ cget m card.
Proof.
  intros Hm. unfold holds, indicator.
  destruct (decide (card ∈ dom m)) as [Hin|Hin].
  - rewrite bool_decide_eq_true_2 by done. apply elem_of_dom in Hin as [q Hq].
    pose proof (sparse_cget_pos m card q Hm Hq). lia.
  - rewrite bool_decide_eq_false_2 by done. by apply sparse_cget.
Qed.
End cut_tables.

(** X6. A deck whose placement is beyond its bracket or beyond 64, or
    whose bracket is not positive, leaves every table that is keyed by tier
    as it was, and still counts once for its archetype and adds its copies
    to the card totals. *)
Theorem unplaced_deck_counts_in_totals_only (st : tables) (d : deck) :
  cut_size d < placing d ∨ 64 < placing d ∨ cut_size d ≤ 0 →
  (per_card_by_cut (observe st d) = per_card_by_cut st
   ∧ per_card_qty_by_cut (observe st d) = per_card_qty_by_cut st
   ∧ per_card_by_cut_main (observe st d) = per_card_by_cut_main st
   ∧ per_card_by_cut_side (observe st d) = per_card_by_cut_side st
   ∧ per_card_by_cut_extra (observe st d) = per_card_by_cut_extra st
   ∧ per_card_by_cut_main_side (observe st d) = per_card_by_cut_main_side st
   ∧ per_card_qty_by_cut_main (observe st d) = per_card_qty_by_cut_main st
   ∧ per_card_qty_by_cut_side (observe st d) = per_card_qty_by_cut_side st
   ∧ per_card_qty_by_cut_extra (observe st d) = per_card_qty_by_cut_extra st
   ∧ per_card_qty_by_cut_main_side (observe st d) = per_card_qty_by_cut_main_side st
   ∧ per_archetype_by_cut (observe st d) = per_archetype_by_cut st
   ∧ per_deck_cut_total (observe st d) = per_deck_cut_total st)
  ∧ cget (per_archetype_total (observe st d)) (archetype d)
    = cget (per_archetype_total st) (archetype d) + 1
  ∧ ∀ card, cget (per_card_total (observe st d)) card
            = cget (per_card_total st) card + cget (counts d) card.
Proof.
  intros Hd%tiers_applicable_none. unfold observe.
  cbn [per_card_by_cut per_card_qty_by_cut per_card_by_cut_main per_card_by_cut_side
       per_card_by_cut_extra per_card_by_cut_main_side per_card_qty_by_cut_main
       per_card_qty_by_cut_side per_card_qty_by_cut_extra
       per_card_qty_by_cut_main_side per_archetype_by_cut per_deck_cut_total
       per_archetype_total per_card_total].
  rewrite Hd, !add_presence_no_tier, !add_copies_no_tier. split_and!; try done.
  - rewrite cget_cadd. by rewrite decide_True.
  - intros card. apply cget_add_quantities.
Qed.

(** A deck under the sentinel placement: an instance of X6. *)
Lemma unplaced_deck_counts_in_totals_only_witness :
  per_deck_cut_total (observe (run [burn_example]) unplaced_example)
  = per_deck_cut_total (run [burn_example])
  ∧ cget (per_archetype_total (observe (run [burn_example]) unplaced_example)) "Burn" = 2.
Proof.
  destruct (unplaced_deck_counts_in_totals_only (run [burn_example]) unplaced_example)
    as ((_&_&_&_&_&_&_&_&_&_&_&Hcut) & Harch & _).
  - right. left. by vm_compute.
  - split; [exact Hcut|]. etrans; [exact Harch|]. by vm_compute.
Defined.

(** X7. After every run, the tables that are keyed by tier hold no key
    besides the nine tier labels. *)
Theorem cut_tables_keyed_by_tier_labels (decks : list deck) :
  tier_keyed_tables (run decks).
Proof.
  unfold run, run_from. apply foldl_invariant.
  - intros st d _. apply observe_tier_keyed.
  - unfold tier_keyed_tables, no_tables. simpl.
    split_and!; try apply tier_keyed_empty.
    intros tier. by rewrite dom_empty.
Qed.

(** X8. For decks as the parsers return them, a presence count never
    exceeds the quantity beside it: at every card and tier, in the
    combined tables and in those of each section. *)
Theorem presence_at_most_quantity (decks : list deck) (card tier : string) :
  Forall parsed_deck decks →
  cget (cget2 (per_card_by_cut (run decks)) card) tier
  ≤ cget (cget2 (per_card_qty_by_cut (run decks)) card) tier
  ∧ cget (cget2 (per_card_by_cut_main (run decks)) card) tier
    ≤ cget (cget2 (per_card_qty_by_cut_main (run decks)) card) tier
  ∧ cget (cget2 (per_card_by_cut_side (run decks)) card) tier
    ≤ cget (cget2 (per_card_qty_by_cut_side (run decks)) card) tier
  ∧ cget (cget2 (per_card_by_cut_extra (run decks)) card) tier
    ≤ cget (cget2 (per_card_qty_by_cut_extra (run decks)) card) tier.
Proof.
  intros Hall.
  assert (∀ (sec : deck → gmap string Z),
    (∀ d, parsed_deck d → sparse (sec d)) →
    sum_over (λ d, indicator (made_cut tier d && holds (sec d) card)) decks
    ≤ sum_over (λ d, if made_cut tier d then cget (sec d) card else 0) decks) as Hle.
  { intros sec Hsec. apply sum_over_le. eapply Forall_impl; [exact Hall|].
    intros d Hd. simpl. destruct (made_cut tier d); simpl; [|done].
    apply holds_at_most_copies. by apply Hsec. }
  split_and!.
  - rewrite (run_sum (λ st, cget (cget2 (per_card_by_cut st) card) tier)
               (λ d, indicator (made_cut tier d && holds (counts d) card)));
      [|apply cget2_empty|intros; apply observe_by_cut].
    rewrite (run_sum (λ st, cget (cget2 (per_card_qty_by_cut st) card) tier)
               (λ d, if made_cut tier d then cget (counts d) card else 0));
      [|apply cget2_empty|intros; apply observe_qty_by_cut].
    apply (Hle counts). by intros d (?&?&?&?).
  - rewrite (run_sum (λ st, cget (cget2 (per_card_by_cut_main st) card) tier)
               (λ d, indicator (made_cut tier d && holds (main_counts d) card)));
      [|apply cget2_empty|intros; apply observe_by_cut].
    rewrite (run_sum (λ st, cget (cget2 (per_card_qty_by_cut_main st) card) tier)
               (λ d, if made_cut tier d then cget (main_counts d) card else 0));
      [|apply cget2_empty|intros; apply observe_qty_by_cut].
    apply (Hle main_counts). by intros d (?&?&?&?).
  - rewrite (run_sum (λ st, cget (cget2 (per_card_by_cut_side st) card) tier)
               (λ d, indicator (made_cut tier d && holds (side_counts d) card)));
      [|apply cget2_empty|intros; apply observe_by_cut].
    rewrite (run_sum (λ st, cget (cget2 (per_card_qty_by_cut_side st) card) tier)
               (λ d, if made_cut tier d then cget (side_counts d) card else 0));
      [|apply cget2_empty|intros; apply observe_qty_by_cut].
    apply (Hle side_counts). by intros d (?&?&?&?).
  - rewrite (run_sum (λ st, cget (cget2 (per_card_by_cut_extra st) card) tier)
               (λ d, indicator (made_cut tier d && holds (extra_counts d) card)));
      [|apply cget2_empty|intros; apply observe_by_cut].
    rewrite (run_sum (λ st, cget (cget2 (per_card_qty_by_cut_extra st) card) tier)
               (λ d, if made_cut tier d then cget (extra_counts d) card else 0));
      [|apply cget2_empty|intros; apply observe_qty_by_cut].
    apply (Hle extra_counts). by intros d (?&?&?&?).
Qed.

Lemma example_decks_parsed : Forall parsed_deck [burn_example; control_example].
Proof.
  assert (∀ m : gmap string Z,
    Forall (λ item : string * Z, 0 < item.2) (map_to_list m) → sparse m) as Hsp.
  { intros m Hm. apply map_Forall_to_list.
    eapply Forall_impl; [exact Hm|]. by intros [k q]. }
  apply Forall_cons_2; [|apply Forall_cons_2; [|constructor]];
    unfold parsed_deck; split_and!; apply Hsp; vm_compute;
    repeat (constructor; [done|]); constructor.
Qed.

(** Two parsed decks at the tier both reach: an instance of X8. *)
Lemma presence_at_most_quantity_witness :
  cget (cget2 (per_card_by_cut (run [burn_example; control_example]))
              "Pot of Greed") "Top 64"
  ≤ cget (cget2 (per_card_qty_by_cut (run [burn_example; control_example]))
                "Pot of Greed") "Top 64".
Proof.
  apply (presence_at_most_quantity [burn_example; control_example]
           "Pot of Greed" "Top 64").
  apply example_decks_parsed.
Defined.

(** ** More on names and tiers *)

Lemma rstrip_last (s : string) (c : ascii) :
  last_char (rstrip s) = Some c → is_space c = false.
Proof.
  induction s as [|c' s IH]; simpl; [done|].
  destruct (is_space c' && is_empty (rstrip s)) eqn:Hc; simpl; [done|].
  destruct (rstrip s) as [|c'' r] eqn:Hr.
  - intros [= ->]. simpl in Hc. by rewrite andb_true_r in Hc.
  - exact IH.
Qed.

Lemma rstrip_first (s : string) (c : ascii) :
  is_space c = false → first_char (rstrip (String c s)) = Some c.
Proof. intros Hc. simpl. by rewrite Hc. Qed.

(** X9. [normalize_card_name] is idempotent, and the name it returns
    neither begins nor ends with a blank. *)
Theorem normalize_card_name_idempotent (name : string) :
  normalize_card_name (normalize_card_name name) = normalize_card_name name
  ∧ (∀ c, first_char (normalize_card_name name) = Some c → is_space c = false)
  ∧ (∀ c, last_char (normalize_card_name name) = Some c → is_space c = false).
Proof.
  unfold normalize_card_name. split_and!.
  - apply strip_idemp.
  - intros c. unfold strip.
    destruct (lstrip_cases name) as [->|(c' & r & -> & Hc')]; [done|].
    rewrite rstrip_first by done. by intros [= <-].
  - intros c. unfold strip. apply rstrip_last.
Qed.

Lemma filter_sublist_impl {A} (P Q : A → Prop)
    `{!∀ x, Decision (P x)} `{!∀ x, Decision (Q x)} (l : list A) :
  (∀ x, P x → Q x) → filter P l `sublist_of` filter Q l.
Proof.
  intros HPQ. induction l as [|x l IH]; [done|].
  rewrite !filter_cons. destruct (decide (P x)) as [HP|HP].
  - rewrite decide_True by auto. by constructor.
  - destruct (decide (Q x)); [by constructor|done].
Qed.

Lemma CUT_TIERS_functional (label : string) (thr thr' : Z) :
  (label, thr) ∈ CUT_TIERS → (label, thr') ∈ CUT_TIERS → thr = thr'.
Proof.
  unfold CUT_TIERS. rewrite !elem_of_cons, !elem_of_nil. intros Hin Hin'.
  destruct_or! Hin; simplify_eq; destruct_or! Hin'; by simplify_eq.
Qed.

(** X10. The tiers of a placement shrink as the placement grows and grow
    with the bracket: a worse placement in the same bracket, or the same
    placement in a smaller bracket, qualifies for a subsequence of the
    tiers; and a deck that qualifies for a tier qualifies for every tier
    of the bracket with a higher threshold. *)
Theorem tiers_applicable_monotone (p p' n n' : Z) :
  p ≤ p' → n ≤ n' →
  tiers_applicable p' n `sublist_of` tiers_applicable p n
  ∧ tiers_applicable p n `sublist_of` tiers_applicable p n'
  ∧ ∀ label thr label' thr',
      (label, thr) ∈ CUT_TIERS → (label', thr') ∈ CUT_TIERS →
      label ∈ tiers_applicable p n → thr ≤ thr' → thr' ≤ n →
      label' ∈ tiers_applicable p n.
Proof.
  intros Hp Hn. rewrite !tiers_applicable_filter. split_and!.
  - apply fmap_sublist, filter_sublist_impl. intros [l thr] [??]. split; simpl in *; lia.
  - apply fmap_sublist, filter_sublist_impl. intros [l thr] [??]. split; simpl in *; lia.
  - intros label thr label' thr' Hin Hin' Hq Hthr Hn'.
    apply list_elem_of_fmap in Hq as ([l0 thr0] & Hl0 & [Hq0 Hin0]%list_elem_of_filter).
    simpl in Hl0. subst l0. destruct Hq0 as [_ Hp0]. simpl in Hp0.
    assert (thr0 = thr) as ->.
    { by apply (CUT_TIERS_functional label). }
    apply list_elem_of_fmap. exists (label', thr'). split; [done|].
    apply list_elem_of_filter. split; [|done]. split; simpl; lia.
Qed.

(** Ninth and third place in a bracket of 16 and of 32: an instance of
    X10. *)
Lemma tiers_applicable_monotone_witness :
  tiers_applicable 9 16 `sublist_of` tiers_applicable 3 16
  ∧ tiers_applicable 3 16 `sublist_of` tiers_applicable 3 32.
Proof.
  destruct (tiers_applicable_monotone 3 9 16 32) as (H1 & H2 & _); [lia|lia|].
  by split.
Defined.

Lemma infer_cut_size_cases (n : Z) :
  (n ≤ 1 ∧ infer_cut_size_from_top n = 1)
  ∨ (1 < n ≤ 2 ∧ infer_cut_size_from_top n = 2)
  ∨ (2 < n ≤ 4 ∧ infer_cut_size_from_top n = 4)
  ∨ (4 < n ≤ 8 ∧ infer_cut_size_from_top n = 8)
  ∨ (8 < n ≤ 16 ∧ infer_cut_size_from_top n = 16)
  ∨ (16 < n ≤ 24 ∧ infer_cut_size_from_top n = 24)
  ∨ (24 < n ≤ 32 ∧ infer_cut_size_from_top n = 32)
  ∨ (32 < n ≤ 48 ∧ infer_cut_size_from_top n = 48)
  ∨ (48 < n ≤ 64 ∧ infer_cut_size_from_top n = 64)
  ∨ (64 < n ∧ infer_cut_size_from_top n = n).
Proof.
  unfold infer_cut_size_from_top, CUT_TIERS, first_threshold.
  repeat match goal with
         | |- context [n <=? ?thr] => destruct (Z.leb_spec n thr); [cbn; lia|]
         end.
  cbn. lia.
Qed.

Lemma infer_cut_size_tier (top_len : Z) :
  top_len ≤ 64 → ∃ label, (label, infer_cut_size_from_top top_len) ∈ CUT_TIERS.
Proof.
  intros Hlen.
  assert (infer_cut_size_from_top top_len ∈ thresholds) as Hin.
  { unfold thresholds, CUT_TIERS. simpl.
    destruct (infer_cut_size_cases top_len) as [H|H]; repeat (destruct H as [H|H]);
      destruct H as [? Hr]; try lia; rewrite Hr; set_solver. }
  apply list_elem_of_fmap in Hin as ([label thr] & Heq & Hin). simpl in Heq.
  exists label. by rewrite Heq.
Qed.

(** X11. The inferred bracket is never smaller than the top cut and never
    below 1; inferring again changes nothing; and a longer top cut never
    gives a smaller bracket. *)
Theorem infer_cut_size_idempotent_monotone (n m : Z) :
  n ≤ infer_cut_size_from_top n
  ∧ 1 ≤ infer_cut_size_from_top n
  ∧ infer_cut_size_from_top (infer_cut_size_from_top n) = infer_cut_size_from_top n
  ∧ (n ≤ m → infer_cut_size_from_top n ≤ infer_cut_size_from_top m).
Proof.
  pose proof (infer_cut_size_cases n) as Hn.
  pose proof (infer_cut_size_cases m) as Hm.
  pose proof (infer_cut_size_cases (infer_cut_size_from_top n)) as Hnn.
  split_and!; try lia.
Qed.

(** X12. In an event whose top cut has at most 64 entries, a deck
    qualifies for no tier exactly when its placement is beyond the inferred
    bracket; a deck placed within the bracket qualifies for the bracket's
    own tier, and a placement of 1 or below (zero and negative numbers
    too) qualifies for Winner. *)
Theorem placed_deck_reaches_bracket_tier (top_len p : Z) :
  top_len ≤ 64 →
  let n := infer_cut_size_from_top top_len in
  (tiers_applicable p n = [] ↔ n < p)
  ∧ (p ≤ n → ∃ label, (label, n) ∈ CUT_TIERS ∧ label ∈ tiers_applicable p n)
  ∧ (p ≤ 1 → "Winner" ∈ tiers_applicable p n).
Proof.
  intros Hlen n. destruct (infer_cut_size_tier top_len Hlen) as [label Hlabel].
  fold n in Hlabel.
  assert (1 ≤ n ≤ 64) as Hn by (by apply (CUT_TIERS_bounds label)).
  assert (p ≤ n → label ∈ tiers_applicable p n) as Hreach.
  { intros Hp. rewrite tiers_applicable_filter. apply list_elem_of_fmap.
    exists (label, n). split; [done|]. apply list_elem_of_filter.
    split; [|done]. split; simpl; lia. }
  split_and!.
  - split.
    + intros Hnil. destruct (Z.lt_ge_cases n p) as [?|Hp]; [done|].
      apply Hreach in Hp. rewrite Hnil in Hp. by apply elem_of_nil in Hp.
    + intros Hp. apply tiers_applicable_none. by left.
  - intros Hp. exists label. auto.
  - intros Hp. rewrite tiers_applicable_filter. apply list_elem_of_fmap.
    exists ("Winner", 1). split; [done|]. apply list_elem_of_filter.
    split; [split; simpl; lia|]. unfold CUT_TIERS. set_solver.
Qed.

(** A top cut of five decks and the deck placed fifth: an instance of
    X12. *)
Lemma placed_deck_reaches_bracket_tier_witness :
  ∃ label, (label, infer_cut_size_from_top 5) ∈ CUT_TIERS
           ∧ label ∈ tiers_applicable 5 (infer_cut_size_from_top 5).
Proof.
  destruct (placed_deck_reaches_bracket_tier 5 5) as (_ & Hreach & _); [lia|].
  apply Hreach. by vm_compute.
Defined.

(** ** More on the parsers *)

Lemma dict_get_or_remove_key_ne (k k' : string) (fields : list (string * json)) (dflt : json) :
  k ≠ k' → dict_get_or (remove_key k fields) k' dflt = dict_get_or fields k' dflt.
Proof. intros Hne. unfold dict_get_or. by rewrite assoc_remove_key_ne. Qed.

Lemma has_section_key_remove_ydk (fields : list (string * json)) :
  has_section_key (remove_key "ydk" fields) = has_section_key fields.
Proof.
  unfold has_section_key, has_key. by rewrite !assoc_remove_key_ne.
Qed.

(** X13. A record with one of the keys [main], [extra], [side] is never
    read as a deck list: its [ydk] field does not count, so that a record
    with an empty collection and a deck list yields no card at all. *)
Theorem ydk_ignored_beside_collections
    (json_loads : string → option json) (fields : list (string * json)) (text : string) :
  has_section_key fields = true →
  parse_deck_payload json_loads (JObj fields)
  = parse_deck_payload json_loads (JObj (remove_key "ydk" fields))
  ∧ parse_deck_payload json_loads (JObj [("main", JArr []); ("ydk", JStr text)]) = Some ∅.
Proof.
  intros Hkey. split; [|done].
  rewrite !parse_deck_payload_record by (by rewrite ?has_section_key_remove_ydk).
  by rewrite !dict_get_or_remove_key_ne.
Qed.

(** A record with one card and a deck list: an instance of X13. *)
Lemma ydk_ignored_beside_collections_witness :
  parse_deck_payload (λ _, None)
    (JObj [("main", JArr [JObj [("name", JStr "Pot of Greed")]]);
           ("ydk", JStr example_text)])
  = parse_deck_payload (λ _, None)
      (JObj [("main", JArr [JObj [("name", JStr "Pot of Greed")]])]).
Proof.
  apply (ydk_ignored_beside_collections (λ _, None)
           [("main", JArr [JObj [("name", JStr "Pot of Greed")]]);
            ("ydk", JStr example_text)] example_text).
  reflexivity.
Defined.

Lemma recorded_names_bad_item (objs : list json) (obj : json) :
  obj ∈ objs → is_dict obj = false → recorded_names objs = None.
Proof.
  intros Hin Hobj. induction objs as [|o objs IH]; [by apply elem_of_nil in Hin|].
  apply elem_of_cons in Hin as [<-|Hin]; simpl.
  - by destruct obj.
  - rewrite (IH Hin). by destruct (card_name o).
Qed.

Lemma section_record_bad_item (objs : list json) (obj : json) :
  obj ∈ objs → is_dict obj = false → section_record (JArr objs) = None.
Proof.
  intros Hin Hobj. unfold section_record, py_or.
  destruct objs as [|o objs]; [by apply elem_of_nil in Hin|]. simpl.
  by apply (recorded_names_bad_item (o :: objs) obj).
Qed.

Lemma section_record_not_list (v : json) :
  truthy v = true → is_list v = false → section_record v = None.
Proof.
  intros Hv Hl. unfold section_record, py_or. rewrite Hv.
  destruct v as [| | |s|objs|fields]; try done; simpl.
  - destruct s as [|c s]; [done|]. done.
  - destruct fields as [|[k v] fields]; [done|]. done.
Qed.

Lemma parsers_raise_on_section (json_loads : string → option json)
    (fields : list (string * json)) (k : string) (v : json) :
  k ∈ section_keys → assoc k fields = Some v → section_record v = None →
  parse_deck_payload json_loads (JObj fields) = None
  ∧ parse_deck_sections (JObj fields) = None.
Proof.
  intros Hk Hv Hraise.
  assert (has_section_key fields = true) as Hkey.
  { unfold has_section_key, has_key, section_keys in *.
    rewrite !elem_of_cons, elem_of_nil in Hk.
    destruct Hk as [->|[->|[->|[]]]]; rewrite Hv; by rewrite ?orb_true_r. }
  assert (dict_get_or fields k (JArr []) = v) as Hget.
  { unfold dict_get_or. by rewrite Hv. }
  rewrite (parse_deck_payload_record _ _ Hkey), parse_deck_sections_record.
  unfold section_keys in Hk. rewrite !elem_of_cons, elem_of_nil in Hk.
  destruct Hk as [->|[->|[->|[]]]]; rewrite Hget, Hraise;
    repeat match goal with
           | |- context [section_record ?x] => destruct (section_record x)
           end; done.
Qed.

(** X14. A collection that holds an item that is no dict, or that is
    itself a non-empty value other than a list, makes both parsers raise
    on the record, whatever the other collections hold. *)
Theorem malformed_collection_raises (json_loads : string → option json)
    (fields : list (string * json)) (k : string) (v : json) :
  k ∈ section_keys → assoc k fields = Some v →
  (truthy v = true ∧ is_list v = false)
  ∨ (∃ objs obj, v = JArr objs ∧ obj ∈ objs ∧ is_dict obj = false) →
  parse_deck_payload json_loads (JObj fields) = None
  ∧ parse_deck_sections (JObj fields) = None.
Proof.
  intros Hk Hv Hbad. apply (parsers_raise_on_section _ fields k v Hk Hv).
  destruct Hbad as [[Ht Hl]|(objs & obj & -> & Hin & Hobj)].
  - by apply section_record_not_list.
  - by apply (section_record_bad_item objs obj).
Qed.

(** A side deck holding a bare name: an instance of X14. *)
Lemma malformed_collection_raises_witness :
  parse_deck_payload (λ _, None)
    (JObj [("main", JArr [JObj [("name", JStr "Pot of Greed")]]);
           ("side", JArr [JStr "Dark Hole"])]) = None
  ∧ parse_deck_sections
      (JObj [("main", JArr [JObj [("name", JStr "Pot of Greed")]]);
             ("side", JArr [JStr "Dark Hole"])]) = None.
Proof.
  apply (malformed_collection_raises (λ _, None)
           [("main", JArr [JObj [("name", JStr "Pot of Greed")]]);
            ("side", JArr [JStr "Dark Hole"])]
           "side" (JArr [JStr "Dark Hole"])).
  - unfold section_keys. set_solver.
  - reflexivity.
  - right. exists [JStr "Dark Hole"], (JStr "Dark Hole"). split_and!; [done| |done].
    set_solver.
Defined.

(** X15. With a decoder whose decoded strings are shorter than their
    encodings, as those of [json.loads] are, a string payload that decodes
    is parsed as the value it decodes to, at any depth of encoding; when
    that value makes the parser raise, the string itself is read as a deck
    list; the string payload never raises. *)
Theorem string_payload_unwraps (json_loads : string → option json)
    (text : string) (decoded : json) :
  (∀ s s', json_loads s = Some (JStr s') → (String.length s' < String.length s)%nat) →
  json_loads text = Some decoded →
  parse_deck_payload json_loads (JStr text)
  = match parse_deck_payload json_loads decoded with
    | Some counts => Some counts
    | None => Some (parse_lines ∅ text)
    end.
Proof.
  intros Hshrink Hl. unfold parse_deck_payload at 1. simpl. rewrite Hl. simpl.
  rewrite (parse_deck_payload_any_depth json_loads Hshrink); [done|].
  destruct decoded as [| | |s'| |]; simpl; try lia.
  apply Hshrink in Hl. lia.
Qed.

(** A record encoded twice: an instance of X15. *)
Lemma string_payload_unwraps_witness :
  parse_deck_payload nested_loads (JStr "outer") = Some {[ "Pot of Greed" := 1 ]}.
Proof.
  rewrite (string_payload_unwraps nested_loads "outer" (JStr "in")).
  - reflexivity.
  - intros s s'. unfold nested_loads.
    destruct (String.eqb_spec s "outer") as [->|_]; [by intros [= <-]; simpl; lia|].
    destruct (String.eqb_spec s "in") as [->|_]; [done|done].
  - reflexivity.
Defined.

(** X16. An entry with a deck reference whose own placing does not convert
    to an integer, and whose deck payload gives no placement that converts
    (it is no record, has no [placement], or has one that does not
    convert), is counted under the sentinel 9999 and qualifies for no tier
    in any bracket. *)
Theorem unparsable_placement_reaches_no_tier
    (entry_fields : list (string * json)) (payload : json) (r : resolved) (n : Z) :
  py_int (py_or (py_or (dict_get entry_fields "placing") (dict_get entry_fields "place"))
                (dict_get entry_fields "rank")) = None →
  match payload with
  | JObj fields =>
      has_key fields "placement" = false ∨ py_int (dict_get fields "placement") = None
  | _ => True
  end →
  resolve_entry (JObj entry_fields) payload = Some (Some r) →
  r_placing r = SENTINEL ∧ tiers_applicable (r_placing r) n = [].
Proof.
  intros Hraw Hpayload. rewrite resolve_entry_dict. cbv zeta. rewrite Hraw. simpl default.
  assert (override_placing payload SENTINEL = SENTINEL) as ->.
  { destruct payload as [| | | | |fields]; try done. simpl.
    destruct Hpayload as [-> | ->]; [done|]. by destruct (has_key fields "placement"). }
  destruct (truthy _); [|done]. intros [= <-]. simpl. split; [done|].
  apply tiers_applicable_above_all. unfold SENTINEL. lia.
Qed.

(** An entry whose placing holds a separator that [str.strip] takes for a
    blank and [int] does not, and whose deck reports a placement that is
    no number: an instance of X16. *)
Lemma unparsable_placement_reaches_no_tier_witness :
  let placing := JStr (String (ascii_of_nat 31) "2") in
  resolve_entry (JObj [("placing", placing); ("deckId", JNum 17)])
                (JObj [("placement", JStr "n/a")])
  = Some (Some {| r_placing := 9999; r_archetype := JStr "Unknown"; r_deck_id := JNum 17 |})
  ∧ tiers_applicable 9999 64 = [].
Proof.
  split; [reflexivity|].
  apply (unparsable_placement_reaches_no_tier
           [("placing", JStr (String (ascii_of_nat 31) "2")); ("deckId", JNum 17)]
           (JObj [("placement", JStr "n/a")])
           {| r_placing := 9999; r_archetype := JStr "Unknown"; r_deck_id := JNum 17 |}
           64).
  - reflexivity.
  - by right.
  - reflexivity.
Defined.

(** ** Fetching with retries *)

Section fetching.
Variable net : nat → reply.

(** After [k] refused attempts the loop stands at attempt [a + k], having
    made [k] requests and slept for each of them. *)
Lemma fetch_from_refused (a k left : nat) (last : option Z) :
  (∀ i, (i < k)%nat → refused (net (a + i)) = true) →
  (k ≤ left)%nat →
  fetch_from net a left last
  = let last' := match k with
                 | O => last
                 | S k' => status_of (net (a + k'))
                 end in
    let rest := fetch_from net (a + k) (left - k) last' in
    FetchRun (outcome rest) (k + requests rest) (seq a k ++ sleeps rest).
Proof.
  revert a left last. induction k as [|k IH]; intros a left last Href Hk.
  - cbv zeta. rewrite Nat.add_0_r, Nat.sub_0_r. simpl. by destruct (fetch_from _ _ _ _).
  - destruct left as [|left]; [lia|].
    pose proof (Href 0%nat ltac:(lia)) as H0. rewrite Nat.add_0_r in H0.
    cbn [fetch_from]. destruct (net a) as [|status decoded text] eqn:Ha; [done|].
    simpl in H0. apply negb_true_iff in H0. rewrite H0.
    rewrite (IH (S a) left (Some status)); [|intros i Hi|lia].
    2:{ replace (S a + i)%nat with (a + S i)%nat by lia. apply Href. lia. }
    cbv zeta. cbn [outcome requests sleeps].
    replace (S a + k)%nat with (a + S k)%nat by lia.
    replace (S left - S k)%nat with (left - k)%nat by lia.
    assert (match k with
            | O => Some status
            | S k' => status_of (net (S a + k'))
            end = status_of (net (a + k))) as ->.
    { destruct k as [|k']; [by rewrite Nat.add_0_r, Ha|].
      by replace (S a + k')%nat with (a + S k')%nat by lia. }
    done.
Qed.
End fetching.

(** X17. [fetch_json] returns the body of the first attempt answered with
    status 200, when the attempts before it were answered with another
    status and it comes within [max_retries]: decoded when it decodes, as
    text otherwise.  It has then made exactly that many requests and slept
    once after each attempt before, for [sleep] times the attempt's
    number. *)
Theorem fetch_json_first_success (net : nat → reply) (max_retries : Z) (k : nat)
    (decoded : option json) (text : string) :
  (∀ i, (1 ≤ i < k)%nat → refused (net i) = true) →
  net k = Reply 200 decoded text →
  (1 ≤ k)%nat → Z.of_nat k ≤ max_retries →
  fetch_json net max_retries
  = {| outcome := Returned (match decoded with Some v => v | None => JStr text end);
       requests := k;
       sleeps := seq 1 (k - 1) |}.
Proof.
  intros Href Hk H1 Hmax. unfold fetch_json.
  rewrite (fetch_from_refused net 1 (k - 1) (Z.to_nat max_retries) None);
    [|intros i Hi; apply Href; lia|lia].
  cbv zeta. replace (1 + (k - 1))%nat with k by lia.
  destruct (Z.to_nat max_retries - (k - 1))%nat as [|left] eqn:Hleft; [lia|].
  cbn [fetch_from]. rewrite Hk. simpl. rewrite app_nil_r. f_equal. lia.
Qed.

(** Two refusals and then an answer: an instance of X17. *)
Lemma fetch_json_first_success_witness :
  fetch_json flaky_net 3
  = {| outcome := Returned pot_record; requests := 3; sleeps := [1; 2]%nat |}.
Proof.
  apply (fetch_json_first_success flaky_net 3 3 (Some pot_record) "").
  - intros i Hi. unfold flaky_net.
    destruct (Nat.ltb_spec i 3); [done|lia].
  - reflexivity.
  - lia.
  - lia.
Defined.

(** X18. When every one of the [max_retries] attempts is answered with a
    status other than 200, [fetch_json] has made [max_retries] requests and
    slept after each of them, the last one too; it then raises when the
    last status is between 400 and 599, and otherwise returns [None]
    without raising.  With no attempt allowed it raises without a
    request. *)
Theorem fetch_json_exhausted (net : nat → reply) (max_retries : Z) :
  (∀ i, (1 ≤ i)%nat → Z.of_nat i ≤ max_retries → refused (net i) = true) →
  fetch_json net max_retries
  = {| outcome := if 0 <? max_retries
                  then after_retries (status_of (net (Z.to_nat max_retries)))
                  else Raised;
       requests := Z.to_nat max_retries;
       sleeps := seq 1 (Z.to_nat max_retries) |}.
Proof.
  intros Href. unfold fetch_json.
  rewrite (fetch_from_refused net 1 (Z.to_nat max_retries) (Z.to_nat max_retries) None);
    [|intros i Hi; apply Href; lia|lia].
  cbv zeta. rewrite Nat.sub_diag. cbn [fetch_from outcome requests sleeps].
  rewrite app_nil_r, Nat.add_0_r. f_equal.
  destruct (Z.ltb_spec 0 max_retries) as [Hpos|Hneg].
  - destruct (Z.to_nat max_retries) as [|m] eqn:Hm; [lia|].
    by replace (1 + m)%nat with (S m) by lia.
  - by replace (Z.to_nat max_retries) with 0%nat by lia.
Qed.

(** Three answers of status 204: an instance of X18, one that returns
    [None]. *)
Lemma fetch_json_exhausted_witness :
  fetch_json empty_net 3
  = {| outcome := ReturnedNone; requests := 3; sleeps := [1; 2; 3]%nat |}.
Proof.
  apply (fetch_json_exhausted empty_net 3). intros i _ _. reflexivity.
Defined.

(** X19. An attempt on which [requests.get] itself raises is not tried
    again: [fetch_json] raises at once, whatever attempts are left, having
    slept only for the attempts refused before. *)
Theorem fetch_json_transport_error (net : nat → reply) (max_retries : Z) (k : nat) :
  (∀ i, (1 ≤ i < k)%nat → refused (net i) = true) →
  net k = NoReply →
  (1 ≤ k)%nat → Z.of_nat k ≤ max_retries →
  fetch_json net max_retries
  = {| outcome := Raised; requests := k; sleeps := seq 1 (k - 1) |}.
Proof.
  intros Href Hk H1 Hmax. unfold fetch_json.
  rewrite (fetch_from_refused net 1 (k - 1) (Z.to_nat max_retries) None);
    [|intros i Hi; apply Href; lia|lia].
  cbv zeta. replace (1 + (k - 1))%nat with k by lia.
  destruct (Z.to_nat max_retries - (k - 1))%nat as [|left] eqn:Hleft; [lia|].
  cbn [fetch_from]. rewrite Hk. simpl. rewrite app_nil_r. f_equal. lia.
Qed.

(** A refusal and then a broken connection, with three attempts allowed:
    an instance of X19. *)
Lemma fetch_json_transport_error_witness :
  fetch_json broken_net 3
  = {| outcome := Raised; requests := 2; sleeps := [1]%nat |}.
Proof.
  apply (fetch_json_transport_error broken_net 3 2).
  - intros i Hi. unfold broken_net. destruct (Nat.ltb_spec i 2); [done|lia].
  - reflexivity.
  - lia.
  - lia.
Defined.

(** ** The events of a run *)

Lemma only_alnum_all_alnum (s : string) : all_alnum (only_alnum s) = true.
Proof.
  induction s as [|c s IH]; simpl; [done|].
  destruct (is_alnum c) eqn:Hc; simpl; [by rewrite Hc|done].
Qed.

Lemma is_space_not_alnum (c : ascii) : is_space c = true → is_alnum c = false.
Proof. destruct c as [[] [] [] [] [] [] [] []]; by vm_compute. Qed.

Lemma only_alnum_lstrip (s : string) : only_alnum (lstrip s) = only_alnum s.
Proof.
  induction s as [|c s IH]; simpl; [done|].
  destruct (is_space c) eqn:Hc; [|done].
  by rewrite (is_space_not_alnum c Hc).
Qed.

Lemma only_alnum_rstrip (s : string) : only_alnum (rstrip s) = only_alnum s.
Proof.
  induction s as [|c s IH]; simpl; [done|].
  destruct (is_space c && is_empty (rstrip s)) eqn:Hc; simpl.
  - apply andb_prop in Hc as [Hc He]. rewrite (is_space_not_alnum c Hc).
    rewrite <- IH. by destruct (rstrip s).
  - by rewrite IH.
Qed.

Lemma only_alnum_strip (s : string) : only_alnum (strip s) = only_alnum s.
Proof. unfold strip. by rewrite only_alnum_rstrip, only_alnum_lstrip. Qed.

Lemma only_alnum_idemp (s : string) : only_alnum (only_alnum s) = only_alnum s.
Proof.
  induction s as [|c s IH]; simpl; [done|].
  destruct (is_alnum c) eqn:Hc; simpl; [by rewrite Hc, IH|done].
Qed.



(** X21. An event whose slug, whose event record's slug (the record being
    there or not) and whose abbreviation all count as false gets the
    letters and digits of its name for a slug, whatever blanks and
    punctuation the name holds; an event whose name is missing, or holds
    no letter or digit, is passed over. *)
Theorem derived_slug_alphanumeric (fields inner : list (string * json)) (name : string) :
  truthy (dict_get fields "slug") = false →
  dict_get_or fields "event" (JObj []) = JObj inner →
  truthy (dict_get inner "slug") = false →
  truthy (dict_get fields "abbreviation") = false →
  py_or (dict_get fields "name") (JStr EmptyString) = JStr name →
  event_slug (JObj fields)
  = (if is_empty (only_alnum name) then Some None
     else Some (Some (JStr (only_alnum name))))
  ∧ all_alnum (only_alnum name) = true
  ∧ only_alnum (only_alnum name) = only_alnum name.
Proof.
  intros Hslug Hevent Hinner Habbr Hname. split_and!.
  - unfold event_slug. simpl. rewrite Hslug, Hevent. simpl.
    rewrite Hinner. simpl. rewrite Habbr, Hname.
    destruct name as [|c name]; [done|].
    rewrite only_alnum_strip.
    destruct (is_empty (strip (String c name))) eqn:Hs; [|done].
    assert (only_alnum (String c name) = EmptyString) as ->; [|done].
    rewrite <- only_alnum_strip. by destruct (strip (String c name)).
  - apply only_alnum_all_alnum.
  - apply only_alnum_idemp.
Qed.

(** An event named with blanks and punctuation, whose event record holds
    an id and no slug: an instance of X21. *)
Lemma derived_slug_alphanumeric_witness :
  event_slug (JObj [("event", JObj [("id", JNum 3)]);
                    ("name", JStr " Goat Format: Cup #12! ")])
  = Some (Some (JStr "GoatFormatCup12")).
Proof.
  apply (derived_slug_alphanumeric
           [("event", JObj [("id", JNum 3)]); ("name", JStr " Goat Format: Cup #12! ")]
           [("id", JNum 3)] " Goat Format: Cup #12! ");
    reflexivity.
Defined.

(** ** Column letters *)

Lemma append_String (c : ascii) (s t : string) :
  String c s +:+ t = String c (s +:+ t).
Proof. reflexivity. Qed.

Lemma append_empty_r (t : string) : t +:+ EmptyString = t.
Proof. induction t as [|c t IH]; [done|]. by rewrite append_String, IH. Qed.

Lemma append_cons_end (pre : string) (c : ascii) (s : string) :
  (pre +:+ String c EmptyString) +:+ s = pre +:+ String c s.
Proof.
  induction pre as [|c' pre IH]; [done|]. by rewrite !append_String, IH.
Qed.

Lemma col_number_from_append (acc : Z) (s1 s2 : string) :
  col_number_from acc (s1 +:+ s2) = col_number_from (col_number_from acc s1) s2.
Proof.
  revert acc. induction s1 as [|c s1 IH]; intros acc; [done|].
  rewrite append_String. cbn [col_number_from]. apply IH.
Qed.

Lemma all_upper_append (s1 s2 : string) :
  all_upper (s1 +:+ s2) = all_upper s1 && all_upper s2.
Proof.
  induction s1 as [|c s1 IH]; [done|].
  rewrite append_String. cbn [all_upper]. by rewrite IH, andb_assoc.
Qed.

Lemma letter_code (r : Z) :
  0 ≤ r < 26 →
  Z.of_N (code (ascii_of_N (Z.to_N (65 + r)))) = 65 + r
  ∧ is_upper (ascii_of_N (Z.to_N (65 + r))) = true.
Proof.
  intros Hr. unfold is_upper, code.
  rewrite N_ascii_embedding by lia. split; [lia|].
  apply andb_true_intro. split; apply N.leb_le; lia.
Qed.

(** The loop on a number that is not negative: it ends within the turns
    given, and what it puts before [s] are the letters of the number. *)
Lemma col_letter_loop_letters (fuel : nat) (n : Z) (s : string) :
  0 ≤ n → (Z.to_nat n < fuel)%nat →
  ∃ pre, col_letter_loop fuel n s = Some (pre +:+ s)
         ∧ col_number pre = n ∧ all_upper pre = true
         ∧ (is_empty pre = true ↔ n = 0).
Proof.
  revert n s. induction fuel as [|fuel IH]; intros n s Hn Hfuel; [lia|].
  simpl. destruct (Z.eqb_spec n 0) as [->|Hne].
  - by exists EmptyString.
  - assert (0 ≤ (n - 1) `div` 26 < n) as Hq.
    { split; [apply Z.div_pos; lia|]. apply Z.div_lt_upper_bound; lia. }
    assert (0 ≤ (n - 1) `mod` 26 < 26) as Hr by (apply Z.mod_pos_bound; lia).
    destruct (IH ((n - 1) `div` 26)
                 (String (ascii_of_N (Z.to_N (65 + (n - 1) `mod` 26))) s))
      as (pre & Hloop & Hnum & Hup & _); [lia|lia|].
    destruct (letter_code _ Hr) as [Hcode Hupper].
    exists (pre +:+ String (ascii_of_N (Z.to_N (65 + (n - 1) `mod` 26))) EmptyString).
    split_and!.
    + rewrite Hloop. f_equal. symmetry. apply append_cons_end.
    + unfold col_number in *. rewrite col_number_from_append, Hnum. simpl.
      rewrite Hcode. pose proof (Z.div_mod (n - 1) 26). lia.
    + rewrite all_upper_append, Hup. simpl. by rewrite Hupper.
    + split; [|done]. by destruct pre.
Qed.

Lemma col_letter_loop_negative (fuel : nat) (n : Z) (s : string) :
  n < 0 → col_letter_loop fuel n s = None.
Proof.
  revert n s. induction fuel as [|fuel IH]; intros n s Hn; [done|].
  simpl. destruct (Z.eqb_spec n 0); [lia|]. apply IH.
  apply Z.div_lt_upper_bound; lia.
Qed.

(** X22. For a number that is not negative [col_letter] ends and returns
    capital letters that read back, as digits [A] = 1 to [Z] = 26 to the
    base 26, as the number itself, so that different columns get different
    letters; more turns change nothing; the letters are empty only for 0.
    For a negative number the loop never ends, however many turns it is
    given. *)
Theorem col_letter_round_trip (n : Z) (fuel : nat) :
  (0 ≤ n →
   ∃ letters, col_letter n = Some letters
              ∧ col_number letters = n
              ∧ all_upper letters = true
              ∧ (is_empty letters = true ↔ n = 0)
              ∧ ((Z.to_nat n < fuel)%nat →
                 col_letter_loop fuel n EmptyString = Some letters))
  ∧ (n < 0 → col_letter_loop fuel n EmptyString = None)
  ∧ col_letter 1 = Some "A" ∧ col_letter 26 = Some "Z"
  ∧ col_letter 27 = Some "AA" ∧ col_letter 703 = Some "AAA".
Proof.
  split_and!; try done.
  - intros Hn.
    destruct (col_letter_loop_letters (S (Z.to_nat n)) n EmptyString Hn)
      as (pre & Hloop & Hnum & Hup & Hemp); [lia|].
    pose proof append_empty_r as Hnil.
    rewrite Hnil in Hloop. exists pre. split_and!; try done.
    intros Hfuel.
    destruct (col_letter_loop_letters fuel n EmptyString Hn Hfuel)
      as (pre' & Hloop' & Hnum' & _ & _).
    rewrite Hnil in Hloop'. rewrite Hloop'. f_equal.
    (* two strings of letters with the same number *)
    unfold col_letter in Hloop.
    destruct (le_lt_dec fuel (S (Z.to_nat n))) as [Hle|Hlt].
    + clear -Hloop Hloop' Hnil Hn Hfuel Hle.
      assert (fuel = S (Z.to_nat n)) as -> by lia. congruence.
    + clear -Hloop Hloop' Hn Hlt.
      assert (∀ f1 f2 m s r, 0 ≤ m → (Z.to_nat m < f1)%nat → (f1 ≤ f2)%nat →
                col_letter_loop f1 m s = Some r → col_letter_loop f2 m s = Some r) as Hmono.
      { induction f1 as [|f1 IH1]; intros f2 m s r Hm Hf1 Hf12; [lia|].
        destruct f2 as [|f2]; [lia|]. simpl.
        destruct (Z.eqb_spec m 0); [done|]. apply IH1.
        - apply Z.div_pos; lia.
        - assert ((m - 1) `div` 26 < m) by (apply Z.div_lt_upper_bound; lia).
          assert (0 ≤ (m - 1) `div` 26) by (apply Z.div_pos; lia). lia.
        - lia. }
      apply (Hmono _ fuel) in Hloop; [congruence|lia|lia|lia].
  - intros Hn. by apply col_letter_loop_negative.
Qed.

(** Column 28: an instance of X22. *)
Lemma col_letter_round_trip_witness :
  ∃ letters, col_letter 28 = Some letters ∧ col_number letters = 28.
Proof.
  destruct (col_letter_round_trip 28 40) as (Hpos & _).
  destruct (Hpos ltac:(lia)) as (letters & Hl & Hn & _).
  by exists letters.
Defined.

(** ** The sheets: sorting and the cut labels *)

Section sorting.
Context {A : Type} (key : A → string).

Lemma insert_by_Permutation (x : A) (l : list A) : insert_by key x l ≡ₚ x :: l.
Proof.
  induction l as [|y l IH]; [done|]. simpl.
  destruct (String.leb (key x) (key y)); [done|].
  rewrite IH. apply Permutation_swap.
Qed.

Lemma sorted_by_Permutation (l : list A) : sorted_by key l ≡ₚ l.
Proof.
  induction l as [|x l IH]; [done|]. simpl.
  by rewrite insert_by_Permutation, IH.
Qed.

End sorting.

Lemma ascii_compare_N (a b : ascii) : Ascii.compare a b = N.compare (N_of_ascii a) (N_of_ascii b).
Proof. reflexivity. Qed.

Lemma string_compare_refl (s : string) : String.compare s s = Eq.
Proof.
  induction s as [|c s IH]; [done|]. simpl.
  rewrite ascii_compare_N, N.compare_refl. exact IH.
Qed.

Lemma string_compare_trans_lt (a b c : string) :
  String.compare a b = Lt → String.compare b c = Lt → String.compare a c = Lt.
Proof.
  revert b c. induction a as [|x a IH]; intros [|y b] [|z c]; simpl; try done.
  rewrite !ascii_compare_N.
  destruct (N.compare_spec (N_of_ascii x) (N_of_ascii y)) as [Hxy|Hxy|Hxy]; try done;
  destruct (N.compare_spec (N_of_ascii y) (N_of_ascii z)) as [Hyz|Hyz|Hyz]; try done.
  - rewrite Hxy, Hyz, N.compare_refl. apply IH.
  - intros _ _. rewrite Hxy. by rewrite (proj2 (N.compare_lt_iff _ _) Hyz).
  - intros _ _. rewrite <- Hyz. by rewrite (proj2 (N.compare_lt_iff _ _) Hxy).
  - intros _ _.
    assert (N_of_ascii x < N_of_ascii z)%N as H by lia.
    by rewrite (proj2 (N.compare_lt_iff _ _) H).
Qed.

Lemma str_le_alt (a b : string) : str_le a b ↔ a = b ∨ String.compare a b = Lt.
Proof.
  unfold str_le, String.leb. split.
  - destruct (String.compare a b) eqn:H; [|by right|done].
    left. by apply String.compare_eq_iff.
  - intros [-> | ->]; [|done]. by rewrite string_compare_refl.
Qed.

#[local] Instance str_le_trans : Transitive str_le.
Proof.
  intros a b c [-> | Hab]%str_le_alt [-> | Hbc]%str_le_alt; apply str_le_alt; eauto.
  right. by eapply string_compare_trans_lt.
Qed.

#[local] Instance str_le_total : Total str_le.
Proof. intros a b. apply String.leb_total. Qed.

#[local] Instance str_le_antisym : AntiSymm (=) str_le.
Proof. intros a b. apply String.leb_antisym. Qed.

#[local] Instance str_le_refl : Reflexive str_le.
Proof. intros a. apply str_le_alt. by left. Qed.

Section sorting_order.
Context {A : Type} (key : A → string).

Lemma insert_by_sorted (x : A) (l : list A) :
  StronglySorted (key_le key) l → StronglySorted (key_le key) (insert_by key x l).
Proof.
  induction 1 as [|y l Hl IH Hy]; simpl.
  - repeat constructor.
  - destruct (String.leb (key x) (key y)) eqn:Hxy.
    + constructor; [by constructor|]. constructor; [done|].
      eapply Forall_impl; [exact Hy|]. intros z Hz. unfold key_le in *. by etrans.
    + constructor; [done|].
      rewrite insert_by_Permutation. constructor; [|done].
      destruct (String.leb_total (key x) (key y)) as [H|H]; [congruence|done].
Qed.

Lemma sorted_by_sorted (l : list A) : StronglySorted (key_le key) (sorted_by key l).
Proof.
  induction l as [|x l IH]; simpl; [constructor|]. by apply insert_by_sorted.
Qed.

End sorting_order.

Lemma filter_ext_in {A : Type} (P Q : A → Prop) `{!∀ x, Decision (P x)}
    `{!∀ x, Decision (Q x)} (l : list A) :
  (∀ x, x ∈ l → P x ↔ Q x) → filter P l = filter Q l.
Proof.
  induction l as [|x l IH]; intros Hext; [done|].
  rewrite !filter_cons.
  rewrite IH by (intros y Hy; apply Hext; by right).
  destruct (decide (P x)) as [HP|HP], (decide (Q x)) as [HQ|HQ]; try done.
  - destruct HQ. apply Hext; [by left|done].
  - destruct HP. apply Hext; [by left|done].
Qed.

Lemma foldl_append_new (ordered l : list string) :
  NoDup l → foldl append_new ordered l = ordered ++ filter (.∉ ordered) l.
Proof.
  revert ordered. induction l as [|x l IH]; intros ordered Hnd.
  - by rewrite app_nil_r.
  - apply NoDup_cons in Hnd as [Hx Hnd]. cbn [foldl]. rewrite IH by done.
    unfold append_new. rewrite filter_cons. case_bool_decide as Hin.
    + by rewrite decide_False by (intros H; by apply H).
    + rewrite decide_True by done. rewrite <- app_assoc. f_equal. simpl. f_equal.
      apply filter_ext_in. intros y Hy. rewrite elem_of_app, list_elem_of_singleton.
      split; [tauto|]. intros Hn [H | ->]; done.
Qed.

Lemma elem_of_found_in_items (found : gset string) (fields : list (string * json)) (t : string) :
  t ∈ foldl found_in_item found fields
  ↔ t ∈ found ∨ ∃ card tiers, (card, JObj tiers) ∈ fields ∧ t ∈ tiers.*1.
Proof.
  revert found. induction fields as [|[card v] fields IH]; intros found; cbn [foldl].
  - split; [by left|]. intros [H|(c & ts & H & _)]; [done|]. by apply elem_of_nil in H.
  - rewrite IH. unfold found_in_item. simpl. split.
    + intros [H|(c & ts & H & Ht)].
      * destruct v; try (by left).
        apply elem_of_union in H as [H|H]; [by left|]. right.
        exists card, fields0. split; [by left|]. by apply elem_of_list_to_set in H.
      * right. exists c, ts. split; [by right|done].
    + intros [H|(c & ts & H & Ht)].
      * left. destruct v; try done. apply elem_of_union. by left.
      * apply elem_of_cons in H as [H|H].
        -- inversion H; subst. left. apply elem_of_union. right.
           by apply elem_of_list_to_set.
        -- right. by exists c, ts.
Qed.

Lemma elem_of_found_from (found : gset string) (dicts : list json) (t : string) :
  t ∈ foldl found_in found dicts ↔ t ∈ found ∨ label_occurs t dicts.
Proof.
  revert found. induction dicts as [|m dicts IH]; intros found; cbn [foldl].
  - split; [by left|]. intros [H|(f & c & ts & H & _)]; [done|]. by apply elem_of_nil in H.
  - rewrite IH. unfold label_occurs. split.
    + intros [H|(f & c & ts & Hm & Hc & Ht)].
      * destruct m; try (by left). simpl in H.
        apply elem_of_found_in_items in H as [H|(c & ts & Hc & Ht)]; [by left|].
        right. exists fields, c, ts. split; [by left|done].
      * right. exists f, c, ts. split; [by right|done].
    + intros [H|(f & c & ts & Hm & Hc & Ht)].
      * left. destruct m; try done. simpl. apply elem_of_found_in_items. by left.
      * apply elem_of_cons in Hm as [<- | Hm].
        -- left. simpl. apply elem_of_found_in_items. right. by exists c, ts.
        -- right. by exists f, c, ts.
Qed.

Lemma elem_of_found_labels (dicts : list json) (t : string) :
  t ∈ found_labels dicts ↔ label_occurs t dicts.
Proof.
  unfold found_labels. rewrite elem_of_found_from. set_solver.
Qed.

Lemma sorted_NoDup (l : list string) : NoDup l → NoDup (sorted l).
Proof. intros H. unfold sorted. by rewrite sorted_by_Permutation. Qed.

Lemma elem_of_sorted (l : list string) (t : string) : t ∈ sorted l ↔ t ∈ l.
Proof. unfold sorted. by rewrite sorted_by_Permutation. Qed.

Lemma sorted_sorted (l : list string) : StronglySorted str_le (sorted l).
Proof. exact (sorted_by_sorted id l). Qed.

Lemma StronglySorted_filter {A : Type} (R : relation A) (P : A → Prop)
    `{!∀ x, Decision (P x)} (l : list A) :
  StronglySorted R l → StronglySorted R (filter P l).
Proof.
  induction 1 as [|x l Hl IH Hx]; [constructor|].
  rewrite filter_cons. destruct (decide (P x)); [|done].
  constructor; [done|]. apply Forall_forall. intros y [_ Hy]%list_elem_of_filter.
  by eapply Forall_forall in Hx.
Qed.

(** The labels in closed form. *)
Lemma union_cut_labels_found (dicts : list json) :
  let found := found_labels dicts in
  let ordered := filter (.∈ found) CUT_LABELS_DEFAULT
                 ++ filter (.∉ CUT_LABELS_DEFAULT) (sorted (elements found)) in
  union_cut_labels dicts = (if decide (found = ∅) then CUT_LABELS_DEFAULT else ordered)
  ∧ ∀ t, t ∈ ordered ↔ t ∈ found.
Proof.
  intros found ordered.
  assert (foldl append_new (filter (.∈ found) CUT_LABELS_DEFAULT) (sorted (elements found))
          = ordered) as Heq.
  { rewrite foldl_append_new by (apply sorted_NoDup, NoDup_elements).
    unfold ordered. f_equal. apply filter_ext_in. intros t Ht.
    apply elem_of_sorted, elem_of_elements in Ht.
    rewrite list_elem_of_filter. tauto. }
  assert (∀ t, t ∈ ordered ↔ t ∈ found) as Hmem.
  { intros t. unfold ordered.
    rewrite elem_of_app, !list_elem_of_filter, elem_of_sorted, elem_of_elements.
    destruct (decide (t ∈ CUT_LABELS_DEFAULT)); tauto. }
  split; [|done].
  unfold union_cut_labels. fold found. rewrite Heq.
  destruct (decide (found = ∅)) as [Hemp|Hne].
  - destruct ordered as [|t rest]; [done|].
    assert (t ∈ found) as H by (apply Hmem; by left). rewrite Hemp in H. set_solver.
  - destruct ordered as [|t rest]; [|done].
    destruct Hne. apply leibniz_equiv. apply set_equiv. intros t.
    rewrite <- Hmem. set_solver.
Qed.

(** X23. [union_cut_labels] finds exactly the second-level keys of the
    dicts it is given.  When there is none it returns the nine default
    labels; otherwise it returns the labels found and no other, each once:
    first the default ones in their default order, then the others in
    ascending order.  The list is never empty. *)
Theorem union_cut_labels_spec (dicts : list json) :
  let found := found_labels dicts in
  let labels := union_cut_labels dicts in
  (∀ t, t ∈ found ↔ label_occurs t dicts)
  ∧ (found = ∅ → labels = CUT_LABELS_DEFAULT)
  ∧ (found ≠ ∅ →
     labels = filter (.∈ found) CUT_LABELS_DEFAULT
              ++ filter (.∉ CUT_LABELS_DEFAULT) (sorted (elements found))
     ∧ ∀ t, t ∈ labels ↔ t ∈ found)
  ∧ StronglySorted str_le (filter (.∉ CUT_LABELS_DEFAULT) (sorted (elements found)))
  ∧ NoDup labels
  ∧ labels ≠ [].
Proof.
  intros found labels. subst found labels.
  destruct (union_cut_labels_found dicts) as [Heq Hmem]. cbv zeta in Heq, Hmem.
  split_and!.
  - intros t. apply elem_of_found_labels.
  - intros Hemp. by rewrite Heq, decide_True.
  - intros Hne. rewrite Heq, decide_False by done. split; [done|]. exact Hmem.
  - apply StronglySorted_filter, sorted_sorted.
  - rewrite Heq. destruct (decide (found_labels dicts = ∅)).
    + apply (bool_decide_unpack (NoDup CUT_LABELS_DEFAULT)). by vm_compute.
    + apply NoDup_app. split_and!.
      * apply NoDup_filter. apply (bool_decide_unpack (NoDup CUT_LABELS_DEFAULT)). by vm_compute.
      * intros t [_ H1]%list_elem_of_filter [H2 _]%list_elem_of_filter. done.
      * apply NoDup_filter, sorted_NoDup, NoDup_elements.
  - rewrite Heq. destruct (decide (found_labels dicts = ∅)) as [|Hne]; [done|].
    intros Hnil. destruct Hne. apply leibniz_equiv, set_equiv. intros t.
    specialize (Hmem t). rewrite Hnil in Hmem. set_solver.
Qed.

(** Two default labels and two others: an instance of X23. *)
Lemma union_cut_labels_spec_witness :
  union_cut_labels labels_example = ["Winner"; "Top 8"; "League"; "Top 128"].
Proof.
  destruct (union_cut_labels_spec labels_example) as (_ & _ & H & _).
  destruct H as [-> _]; [by vm_compute|]. by vm_compute.
Defined.

(** ** The sheets: the labels of a run *)

Lemma document_serialize (now : string) (st : tables) :
  omap (document_entry (serialize now st)) TABLE_KEYS
  = [ ("per_card_total", dump_counter (per_card_total st));
      ("per_card_by_cut", dump_table (per_card_by_cut st));
      ("per_card_qty_by_cut", dump_table (per_card_qty_by_cut st));
      ("per_card_total_main", dump_counter (per_card_total_main st));
      ("per_card_total_side", dump_counter (per_card_total_side st));
      ("per_card_total_extra", dump_counter (per_card_total_extra st));
      ("per_card_total_main_side", dump_counter (per_card_total_main_side st));
      ("per_card_by_cut_main", dump_table (per_card_by_cut_main st));
      ("per_card_by_cut_side", dump_table (per_card_by_cut_side st));
      ("per_card_by_cut_extra", dump_table (per_card_by_cut_extra st));
      ("per_card_by_cut_main_side", dump_table (per_card_by_cut_main_side st));
      ("per_card_qty_by_cut_main", dump_table (per_card_qty_by_cut_main st));
      ("per_card_qty_by_cut_side", dump_table (per_card_qty_by_cut_side st));
      ("per_card_qty_by_cut_extra", dump_table (per_card_qty_by_cut_extra st));
      ("per_card_qty_by_cut_main_side", dump_table (per_card_qty_by_cut_main_side st));
      ("per_archetype_total", dump_counter (per_archetype_total st));
      ("per_archetype_by_cut", dump_table (per_archetype_by_cut st));
      ("per_deck_cut_total", dump_counter (per_deck_cut_total st));
      ("per_card_by_archetype", dump_table (per_card_by_archetype st));
      ("per_card_qty_by_archetype", dump_table (per_card_qty_by_archetype st));
      ("per_archetype_card_presence", dump_table (per_archetype_card_presence st));
      ("per_archetype_card_qty", dump_table (per_archetype_card_qty st)) ].
Proof.
  unfold document_entry. generalize dump_counter dump_table. intros f g.
  destruct st. vm_compute. reflexivity.
Qed.

Lemma dicts_for_labels_run (now : string) (st : tables) :
  dicts_for_labels (document (serialize now st))
  = dump_table <$> [ per_card_by_cut st; per_card_qty_by_cut st;
      per_card_by_cut_main st; per_card_by_cut_side st; per_card_by_cut_extra st;
      per_card_by_cut_main_side st;
      per_card_qty_by_cut_main st; per_card_qty_by_cut_side st; per_card_qty_by_cut_extra st;
      per_card_qty_by_cut_main_side st ].
Proof.
  unfold dicts_for_labels, document. rewrite document_serialize. reflexivity.
Qed.

Lemma dump_counter_keys (c : gmap string Z) (t : string) :
  t ∈ ((λ kv : string * Z, (kv.1, JNum kv.2)) <$> map_to_list c).*1 ↔ t ∈ dom c.
Proof.
  rewrite <- list_fmap_compose.
  rewrite elem_of_dom. unfold is_Some. setoid_rewrite <- elem_of_map_to_list.
  rewrite list_elem_of_fmap. split.
  - intros ([k z] & -> & H). by exists z.
  - intros (z & H). by exists (t, z).
Qed.

Lemma label_occurs_dump (ts : list (gmap string (gmap string Z))) (t : string) :
  label_occurs t (dump_table <$> ts)
  ↔ ∃ T card inner, T ∈ ts ∧ T !! card = Some inner ∧ t ∈ dom inner.
Proof.
  unfold label_occurs. split.
  - intros (fields & card & tiers & Hm & Hc & Ht).
    apply list_elem_of_fmap in Hm as (T & Heq & HT).
    unfold dump_table in Heq. injection Heq as ->.
    apply list_elem_of_fmap in Hc as ([c inner] & Heq & Hc).
    unfold dump_counter in Heq. simpl in Heq.
    injection Heq as -> ->. apply elem_of_map_to_list in Hc.
    exists T, c, inner. split_and!; [done..|].
    by apply dump_counter_keys.
  - intros (T & card & inner & HT & Hc & Ht).
    apply dump_counter_keys in Ht.
    exists ((λ kv, (kv.1, dump_counter kv.2)) <$> map_to_list T), card,
           ((λ kv : string * Z, (kv.1, JNum kv.2)) <$> map_to_list inner).
    split_and!; [| |done].
    + apply list_elem_of_fmap. by exists T.
    + apply list_elem_of_fmap. exists (card, inner).
      split; [done|by apply elem_of_map_to_list].
Qed.

Lemma cget_nonzero_dom (c : gmap string Z) (k : string) : cget c k ≠ 0 → k ∈ dom c.
Proof.
  unfold cget. intros H. apply elem_of_dom. destruct (c !! k); [done|]. by destruct H.
Qed.

Lemma cget2_nonzero_lookup (T : gmap string (gmap string Z)) (card t : string) :
  cget (cget2 T card) t ≠ 0 → ∃ inner, T !! card = Some inner ∧ t ∈ dom inner.
Proof.
  unfold cget2. destruct (T !! card) as [inner|] eqn:H; simpl.
  - intros Hne. exists inner. split; [done|]. by apply cget_nonzero_dom.
  - unfold cget. rewrite lookup_empty. simpl. done.
Qed.

Lemma sum_over_indicator_pos (test : deck → bool) (decks : list deck) (d : deck) :
  d ∈ decks → test d = true → 0 < sum_over (λ d, indicator (test d)) decks.
Proof.
  intros Hd Ht.
  assert (∀ l, 0 ≤ sum_over (λ d, indicator (test d)) l) as Hnn.
  { induction l as [|x l IH]; [done|]. rewrite sum_over_cons.
    destruct (test x); simpl; lia. }
  induction decks as [|x decks IH]; [by apply elem_of_nil in Hd|].
  rewrite sum_over_cons. apply elem_of_cons in Hd as [<- | Hd].
  - rewrite Ht. simpl. specialize (Hnn decks). lia.
  - specialize (IH Hd). destruct (test x); simpl; lia.
Qed.

(** X24. On the export of any run, the labels [usage_sheets.py] lists are
    tier labels of [CUT_TIERS] in the order of [CUT_TIERS] (the default
    labels of the sheet script are those of the aggregator), never an
    empty list, and every tier that a deck holding a card qualifies for is
    among them. *)
Theorem sheet_labels_of_run (now : string) (decks : list deck) :
  let labels := sheet_cut_labels (document (serialize now (run decks))) in
  CUT_LABELS_DEFAULT = tier_labels
  ∧ labels `sublist_of` tier_labels
  ∧ labels ≠ []
  ∧ (∀ d t, d ∈ decks → counts d ≠ ∅ →
            t ∈ tiers_applicable (placing d) (cut_size d) → t ∈ labels).
Proof.
  intros labels. subst labels. unfold sheet_cut_labels.
  rewrite dicts_for_labels_run.
  set (ts := [per_card_by_cut (run decks); _; _; _; _; _; _; _; _; _]).
  assert (∀ t, t ∈ found_labels (dump_table <$> ts) → t ∈ CUT_LABELS_DEFAULT) as Hsub.
  { intros t (T & card & inner & HT & Hc & Ht)%elem_of_found_labels%label_occurs_dump.
    assert (tier_keyed_tables (run decks)) as (Hk & _).
    { unfold run, run_from. apply foldl_invariant.
      - intros st d _. apply observe_tier_keyed.
      - unfold tier_keyed_tables, no_tables. simpl.
        split_and!; try apply tier_keyed_empty. intros tier. by rewrite dom_empty. }
    assert (tier_keyed T) as HkT.
    { destruct Hk as (?&?&?&?&?&?&?&?&?&?).
      unfold ts in HT. repeat (apply elem_of_cons in HT as [-> | HT]; [done|]).
      by apply elem_of_nil in HT. }
    exact (HkT card inner Hc t Ht). }
  destruct (union_cut_labels_found (dump_table <$> ts)) as [Heq Hmem].
  cbv zeta in Heq, Hmem.
  rewrite (filter_none (.∉ CUT_LABELS_DEFAULT)) in Heq, Hmem
    by (intros t Ht%elem_of_sorted%elem_of_elements; intros Hn; by apply Hn, Hsub).
  rewrite app_nil_r in Heq, Hmem.
  split_and!.
  - reflexivity.
  - rewrite Heq. destruct (decide _); [done|]. apply sublist_filter.
  - rewrite Heq. destruct (decide _) as [|Hne]; [done|]. intros Hnil.
    destruct Hne. apply leibniz_equiv, set_equiv. intros t.
    specialize (Hmem t). rewrite Hnil in Hmem. set_solver.
  - intros d t Hd Hcards Ht.
    assert (t ∈ found_labels (dump_table <$> ts)) as Hfound.
    { apply elem_of_found_labels, label_occurs_dump.
      apply map_choose in Hcards as (card & q & Hq).
      destruct (cget2_nonzero_lookup (per_card_by_cut (run decks)) card t)
        as (inner & Hin & Hdom).
      - rewrite (run_sum (λ st, cget (cget2 (per_card_by_cut st) card) t)
                   (λ d, indicator (made_cut t d && holds (counts d) card)));
          [|apply cget2_empty|intros st d'; apply observe_by_cut].
        assert (0 < sum_over (λ d, indicator (made_cut t d && holds (counts d) card)) decks);
          [|lia].
        apply (sum_over_indicator_pos _ decks d Hd).
        unfold made_cut, holds. rewrite !bool_decide_eq_true_2; [done| |done].
        apply elem_of_dom. by exists q.
      - exists (per_card_by_cut (run decks)), card, inner. split_and!; [|done..].
        unfold ts. by left. }
    rewrite Heq. destruct (decide _) as [Hemp|Hne].
    + rewrite Hemp in Hfound. set_solver.
    + by apply Hmem.
Qed.

(** The first-placed deck of the worked example: an instance of X24. *)
Lemma sheet_labels_of_run_witness :
  "Top 8" ∈ sheet_cut_labels (document (serialize "2025-01-01T00:00:00Z" (run [burn_example]))).
Proof.
  destruct (sheet_labels_of_run "2025-01-01T00:00:00Z" [burn_example]) as (_ & _ & _ & H).
  apply (H burn_example).
  - by left.
  - intros Heq. apply (f_equal (λ m : gmap string Z, m !! "Pot of Greed")) in Heq.
    vm_compute in Heq. discriminate.
  - apply (bool_decide_unpack _). by vm_compute.
Defined.

(** ** The archetype sheets *)


























